(** * running_app: segment identities, geometry orientation, routing
      and the traversal store

    A shallow embedding of [osm.py], [main.py] and [backend.py].

    Conventions used throughout:
    - Python [float] values (lengths, distances, coordinates) are modelled
      as rationals [Q]; float comparison is [Qeq]/[Qlt], so rounding is
      outside the model.
    - Python [int] node identifiers are [Z]; [str] is [string].
    - A raised exception is a value of [exn]; a function that can raise
      returns [result]. *)

From Stdlib Require Import Ascii QArith Qabs Lqa.
From stdpp Require Import base option list strings gmap pretty sorting.

Local Open Scope Z_scope.

(** ** Python exceptions and fallible results *)

Inductive exn : Type :=
  | KeyError
  | IndexError
  | TypeError
  | ValueError
  | AttributeError
  | NetworkXNoPath
  | NodeNotFound.

Inductive result (A : Type) : Type :=
  | Ok (a : A)
  | Raise (e : exn).
Arguments Ok {A} a.
Arguments Raise {A} e.

Definition rbind {A B} (r : result A) (k : A → result B) : result B :=
  match r with
  | Ok a => k a
  | Raise e => Raise e
  end.

Notation "x ←r c ; k" := (rbind c (λ x, k))
  (at level 20, c at level 100, k at level 200, right associativity,
   format "x  ←r  c ;  '//' k").
Notation "' x ←r c ; k" := (rbind c (λ x, k))
  (at level 20, x pattern, c at level 100, k at level 200, right associativity,
   format "' x  ←r  c ;  '//' k").

(** ** Strings *)

(** [c in s] for a character. *)
Fixpoint has_char (c : ascii) (s : string) : bool :=
  match s with
  | EmptyString => false
  | String c' s' => if decide (c' = c) then true else has_char c s'
  end.

(** ** The road network: an undirected multigraph

    The graph object is networkx's [MultiGraph] as rebuilt by
    [node_link_graph]: nodes with a position, and edges carrying a key, a
    [length] and possibly a [segment_id].  Edges are listed in insertion
    order. *)

Record edge : Type := Edge {
  e_u : Z;
  e_v : Z;
  e_key : Z;
  e_length : Q;
  e_segment_id : option string;
}.

Record graph : Type := Graph {
  g_nodes : list (Z * (Q * Q));
  g_edges : list edge;
}.

(** The edge joins [u] and [v], in either direction. *)
Definition joins (u v : Z) (e : edge) : bool :=
  (Z.eqb (e_u e) u && Z.eqb (e_v e) v) || (Z.eqb (e_u e) v && Z.eqb (e_v e) u).

Definition is_edge (u v k : Z) (e : edge) : bool :=
  joins u v e && Z.eqb (e_key e) k.

(** [graph[u][v][k]] and [graph.edges[(u, v, k)]]. *)
Definition get_edge (g : graph) (u v k : Z) : result edge :=
  match List.find (is_edge u v k) (g_edges g) with
  | Some e => Ok e
  | None => Raise KeyError
  end.

(** [graph.edges[(u, v, 0)]["length"]]. *)
Definition edge_length (g : graph) (u v : Z) : result Q :=
  e ←r get_edge g u v 0; Ok (e_length e).

(** [graph.nodes[n]], read as the list [[x, y]]. *)
Definition node_lng_lat (g : graph) (n : Z) : result (list Q) :=
  match List.find (λ p, Z.eqb (fst p) n) (g_nodes g) with
  | Some (_, (x, y)) => Ok [x; y]
  | None => Raise KeyError
  end.

Definition with_segment_id (sid : string) (e : edge) : edge :=
  Edge (e_u e) (e_v e) (e_key e) (e_length e) (Some sid).

Fixpoint update_first (P : edge → bool) (f : edge → edge) (l : list edge) : list edge :=
  match l with
  | [] => []
  | e :: l' => if P e then f e :: l' else e :: update_first P f l'
  end.

(** [graph[u][v][0]["segment_id"] = sid]; the caller has checked that the
    edge is there. *)
Definition set_segment_id_of_edge (g : graph) (u v : Z) (sid : string) : graph :=
  Graph (g_nodes g) (update_first (is_edge u v 0) (with_segment_id sid) (g_edges g)).

(** Float lists compared with [==]. *)
Fixpoint floats_eqb (a b : list Q) : bool :=
  match a, b with
  | [], [] => true
  | x :: a', y :: b' => Qeq_bool x y && floats_eqb a' b'
  | _, _ => false
  end.

(** * osm.py *)

Module Osm.

(** An OSM way id as OSMnx hands it over: a string, an integer, or a list
    of those when several ways were joined. *)
Inductive osm_atom : Type :=
  | AtomStr (s : string)
  | AtomInt (z : Z).

Inductive osm_id : Type :=
  | IdStr (s : string)
  | IdInt (z : Z)
  | IdList (l : list osm_atom).

(** [str(id)] for one element of a list-valued id. *)
Definition str_atom (a : osm_atom) : string :=
  match a with
  | AtomStr s => s
  | AtomInt z => pretty z
  end.

(** [clean_osm_ids]: [isinstance(osm_id, str)], then
    [isinstance(osm_id, int)], else ["_".join([str(id) for id in osm_id])]. *)
Definition clean_osm_ids (osm_id : osm_id) : string :=
  match osm_id with
  | IdStr s => s
  | IdInt z => pretty z
  | IdList l => String.concat "_" (str_atom <$> l)
  end.

(** A row of the edge data frame; [I] is the type of the [segment_id]
    column (raw OSM ids before [assign_segment_ids], strings after). *)
Record row (I : Type) : Type := Row {
  start_node : Z;
  end_node : Z;
  segment_id : I;
  length_m : Q;
}.
Arguments Row {I} _ _ _ _.
Arguments start_node {I} _.
Arguments end_node {I} _.
Arguments segment_id {I} _.
Arguments length_m {I} _.

Definition set_segment_id {I J} (r : row I) (j : J) : row J :=
  Row (start_node r) (end_node r) j (length_m r).

(** [df.groupby(key).cumcount()]: each row gets the number of earlier rows
    of its group.  [seen] holds the keys already passed (most recent
    first). *)
Fixpoint cumcount_from (seen keys : list string) : list nat :=
  match keys with
  | [] => []
  | k :: ks => length (filter (λ k', k' = k) seen) :: cumcount_from (k :: seen) ks
  end.

Definition cumcount (keys : list string) : list nat := cumcount_from [] keys.

(** [assign_segment_ids]: first the column is cleaned, then
    [segment_id + "_" + cumcount.astype(str)]. *)
Definition assign_segment_ids (df : list (row osm_id)) : list (row string) :=
  let df1 := (λ r, set_segment_id r (clean_osm_ids (segment_id r))) <$> df in
  let counts := cumcount (segment_id <$> df1) in
  zip_with (λ r c, set_segment_id r (segment_id r +:+ "_" +:+ pretty c)) df1 counts.

(** A GeoJSON feature of the geometry collection. *)
Record feature : Type := Feature {
  f_start_node : Z;
  f_end_node : Z;
  f_segment_id : option string;
  f_coordinates : list (list Q);
}.

Definition with_coordinates (f : feature) (cs : list (list Q)) : feature :=
  Feature (f_start_node f) (f_end_node f) (f_segment_id f) cs.

(** The [try] block: stamp the feature's segment id on edge
    [(start_node, end_node, 0)]; any [KeyError] is swallowed. *)
Definition stamp_segment_id (g : graph) (f : feature) : graph :=
  match f_segment_id f with
  | None => g
  | Some sid =>
      match get_edge g (f_start_node f) (f_end_node f) 0 with
      | Ok _ => set_segment_id_of_edge g (f_start_node f) (f_end_node f) sid
      | Raise _ => g
      end
  end.

(** [coordinates[0]] and [coordinates[-1]]. *)
Definition first_coordinate (cs : list (list Q)) : result (list Q) :=
  match cs with
  | [] => Raise IndexError
  | c :: _ => Ok c
  end.

Definition last_coordinate (cs : list (list Q)) : result (list Q) :=
  match List.rev cs with
  | [] => Raise IndexError
  | c :: _ => Ok c
  end.

(** One iteration of the loop after the stamping: [None] is [continue],
    [Some f'] is [features.append(f')]. *)
Definition orient_feature (g : graph) (f : feature) : result (option feature) :=
  start_node_lng_lat ←r node_lng_lat g (f_start_node f);
  c0 ←r first_coordinate (f_coordinates f);
  let equals_start_of_geom := floats_eqb c0 start_node_lng_lat in
  cn ←r last_coordinate (f_coordinates f);
  let equals_end_of_geom := floats_eqb cn start_node_lng_lat in
  if negb (equals_start_of_geom || equals_end_of_geom) then Ok None
  else if equals_end_of_geom
       then Ok (Some (with_coordinates f (List.rev (f_coordinates f))))
       else Ok (Some f).

Fixpoint agree_loop (g : graph) (todo features : list feature)
  : result (graph * list feature) :=
  match todo with
  | [] => Ok (g, features)
  | f :: todo' =>
      let g' := stamp_segment_id g f in
      o ←r orient_feature g' f;
      match o with
      | None => agree_loop g' todo' features
      | Some f' => agree_loop g' todo' (features ++ [f'])
      end
  end.

(** [make_sure_geometries_agree_with_start_end_nodes]: the returned pair
    is [{"graph": graph, "geometry": geometry}]. *)
Definition make_sure_geometries_agree_with_start_end_nodes
    (g : graph) (geometry : list feature) : result (graph * list feature) :=
  agree_loop g geometry [].

End Osm.

(** * backend.py: the traversal store *)

Module Backend.

(** [models.BaseRunArea]; the store reads only these two fields of a
    [RunArea]. *)
Record RunArea : Type := {
  username : string;
  area_name : string;
}.

(** [models.LoggedRun]; [segment_traversals] is the dict as its item
    list. *)
Record LoggedRun : Type := {
  date : string;
  distance_miles : Q;
  duration : option string;
  comments : option string;
  linestring : option string;
  allow_multiple : bool;
  segment_traversals : list (string * Z);
}.

(** [models.SegmentCollection]. *)
Record SegmentCollection : Type := {
  sc_username : string;
  sc_area_name : string;
  segment_ids : list string;
}.

(** The tables, one record per row. *)
Record run_area_row : Type := {
  ra_username : string;
  ra_area_name : string;
  ra_polygon : string;
  ra_graph : option graph;
  ra_active : bool;
}.

Record logged_run_row : Type := {
  lr_id : string;
  lr_username : string;
  lr_area_name : string;
  lr_date : string;
  lr_distance_miles : Q;
  lr_duration_minutes : option Q;
  lr_comments : option string;
  lr_linestring : option string;
}.

Record segment_traversal_row : Type := {
  st_run_id : string;
  st_segment_id : string;
  st_traversals : Z;
}.

Record ignored_segment_row : Type := {
  is_username : string;
  is_area_name : string;
  is_segment_id : string;
}.

Record database : Type := {
  run_areas : list run_area_row;
  logged_runs : list logged_run_row;
  segment_traversals_table : list segment_traversal_row;
  ignored_segments : list ignored_segment_row;
}.

(** *** Durations *)

Fixpoint str_take (n : nat) (s : string) : string :=
  match n, s with
  | S n', String c s' => String c (str_take n' s')
  | _, _ => EmptyString
  end.

Fixpoint str_drop (n : nat) (s : string) : string :=
  match n, s with
  | S n', String c s' => str_drop n' s'
  | _, _ => s
  end.

(** [s[i:j]] and [s[i:]] for non-negative bounds. *)
Definition slice (i j : nat) (s : string) : string := str_take (j - i) (str_drop i s).
Definition slice_from (i : nat) (s : string) : string := str_drop i s.

Definition digit_value (c : ascii) : option Z :=
  let n := nat_of_ascii c in
  if (48 <=? n)%nat && (n <=? 57)%nat then Some (Z.of_nat n - 48) else None.

Definition is_space (c : ascii) : bool :=
  let n := nat_of_ascii c in
  ((9 <=? n)%nat && (n <=? 13)%nat) || (n =? 32)%nat.

(** Digits with single underscores between them. *)
Fixpoint parse_digits (cs : list ascii) (acc : Z) (after_digit : bool) : option Z :=
  match cs with
  | [] => if after_digit then Some acc else None
  | c :: cs' =>
      match digit_value c with
      | Some d => parse_digits cs' (10 * acc + d) true
      | None =>
          if decide (c = "_"%char)
          then (if after_digit then parse_digits cs' acc false else None)
          else None
      end
  end.

Fixpoint lstrip (cs : list ascii) : list ascii :=
  match cs with
  | c :: cs' => if is_space c then lstrip cs' else cs
  | [] => []
  end.

(** [int(s)] on an ASCII string: surrounding whitespace, an optional
    sign, decimal digits. *)
Definition py_int (s : string) : result Z :=
  let cs := List.rev (lstrip (List.rev (lstrip (String.list_ascii_of_string s)))) in
  let parsed :=
    match cs with
    | c :: cs' =>
        if decide (c = "-"%char) then Z.opp <$> parse_digits cs' 0 false
        else if decide (c = "+"%char) then parse_digits cs' 0 false
        else parse_digits cs 0 false
    | [] => None
    end in
  match parsed with
  | Some z => Ok z
  | None => Raise ValueError
  end.

(** [get_duration_minutes]; slicing [None] raises [TypeError]. *)
Definition get_duration_minutes (duration : option string) : result Q :=
  match duration with
  | None => Raise TypeError
  | Some duration =>
      hours ←r py_int (slice 0 2 duration);
      minutes ←r py_int (slice 3 5 duration);
      seconds ←r py_int (slice 6 8 duration);
      ms ←r py_int (slice_from 9 duration);
      Ok (inject_Z (hours * 60 + minutes)
          + inject_Z seconds / 60 + inject_Z ms / 6000)%Q
  end.

(** *** Runs *)

(** [make_date_clause], as the predicate its [WHERE] clause denotes on
    date texts in the format [YYYY-MM-DD] of [models.date_validation]:
    the [date] column keeps such a text as it is, and texts are compared
    bytewise. *)
Definition make_date_clause (start_date end_date : option string) (d : string) : bool :=
  match start_date, end_date with
  | None, None => true
  | None, Some e => String.leb d e
  | Some s, None => String.leb s d
  | Some s, Some e => String.leb s d && String.leb d e
  end.

Definition run_in_area (run_area : RunArea) (r : logged_run_row) : bool :=
  bool_decide (lr_username r = username run_area)
  && bool_decide (lr_area_name r = area_name run_area).

Fixpoint insert_by_date (x : string * string * Z) (l : list (string * string * Z))
  : list (string * string * Z) :=
  match l with
  | [] => [x]
  | y :: l' => if String.leb x.1.1 y.1.1 then x :: l else y :: insert_by_date x l'
  end.

Definition order_by_date (l : list (string * string * Z)) : list (string * string * Z) :=
  foldr insert_by_date [] l.

(** [runs_in_date_range]: traversal rows joined with the selected runs,
    as [(date, segment_id, traversals)], ordered by date. *)
Definition runs_in_date_range (db : database) (run_area : RunArea)
    (start_date end_date : option string) : list (string * string * Z) :=
  let lr := filter (λ r, make_date_clause start_date end_date (lr_date r) = true
                         ∧ run_in_area run_area r = true) (logged_runs db) in
  order_by_date
    (st ← segment_traversals_table db;
     r ← filter (λ r, st_run_id st = lr_id r) lr;
     [(lr_date r, st_segment_id st, st_traversals st)]).

Definition run_on_date (db : database) (run_area : RunArea) (date : string)
  : list (string * string * Z) :=
  runs_in_date_range db run_area (Some date) (Some date).

(** [bool(self.run_on_date(run_area, date))]. *)
Definition exists_run_on_date (db : database) (run_area : RunArea) (date : string) : bool :=
  match run_on_date db run_area date with
  | [] => false
  | _ :: _ => true
  end.

(** The dict [store_run] returns. *)
Record outcome : Type := Outcome {
  status_code : Z;
  reason : option string;
}.

(** [store_run]; [run_id] is the value of [str(uuid.uuid4())]. *)
Definition store_run (db : database) (run_id : string) (run_area : RunArea)
    (run : LoggedRun) : result (outcome * database) :=
  if negb (allow_multiple run) && exists_run_on_date db run_area (date run) then
    Ok (Outcome 400
          (Some ("Run already exists for " +:+ date run
                 +:+ ", and `allow_multiple`=False: "
                 +:+ "new segments will not be added.")),
        db)
  else
    duration_minutes ←r
      match get_duration_minutes (duration run) with
      | Ok m => Ok (Some m)
      | Raise TypeError => Ok None
      | Raise e => Raise e
      end;
    let run_row :=
      {| lr_id := run_id; lr_username := username run_area;
         lr_area_name := area_name run_area; lr_date := date run;
         lr_distance_miles := distance_miles run;
         lr_duration_minutes := duration_minutes;
         lr_comments := comments run; lr_linestring := linestring run |} in
    let traversal_rows :=
      (λ kv, {| st_run_id := run_id; st_segment_id := kv.1; st_traversals := kv.2 |})
        <$> segment_traversals run in
    Ok (Outcome 200 None,
        {| run_areas := run_areas db;
           logged_runs := logged_runs db ++ [run_row];
           segment_traversals_table := segment_traversals_table db ++ traversal_rows;
           ignored_segments := ignored_segments db |}).

(** *** Ignored segments *)

Definition in_area (u a : string) (r : ignored_segment_row) : bool :=
  bool_decide (is_username r = u) && bool_decide (is_area_name r = a).

Definition set_ignored_segments (db : database) (rows : list ignored_segment_row)
  : database :=
  {| run_areas := run_areas db; logged_runs := logged_runs db;
     segment_traversals_table := segment_traversals_table db;
     ignored_segments := rows |}.

(** [ignored_segment_ids]. *)
Definition ignored_segment_ids (db : database) (run_area : RunArea) : list string :=
  is_segment_id <$>
    filter (λ r, in_area (username run_area) (area_name run_area) r = true)
           (ignored_segments db).

(** [remove_from_ignored_segments]. *)
Definition remove_from_ignored_segments (db : database) (sc : SegmentCollection)
  : database :=
  match segment_ids sc with
  | [] => db
  | _ :: _ =>
      set_ignored_segments db
        (filter (λ r, ¬ (in_area (sc_username sc) (sc_area_name sc) r = true
                         ∧ is_segment_id r ∈ segment_ids sc))
                (ignored_segments db))
  end.

(** [add_to_ignored_segments]. *)
Definition add_to_ignored_segments (db : database) (sc : SegmentCollection)
  : database :=
  match segment_ids sc with
  | [] => db
  | _ :: _ =>
      set_ignored_segments db
        (ignored_segments db ++
         ((λ s, {| is_username := sc_username sc; is_area_name := sc_area_name sc;
                   is_segment_id := s |}) <$> segment_ids sc))
  end.

Definition with_segment_ids (sc : SegmentCollection) (ids : list string)
  : SegmentCollection :=
  {| sc_username := sc_username sc; sc_area_name := sc_area_name sc;
     segment_ids := ids |}.

(** [update_ignored_segments]; membership in
    [currently_ignored_segment_ids] is membership in the set built from
    the list. *)
Definition update_ignored_segments (db : database) (sc : SegmentCollection)
  : database :=
  let run_area := {| username := sc_username sc; area_name := sc_area_name sc |} in
  let currently_ignored_segment_ids := ignored_segment_ids db run_area in
  let new_ignored_segment_ids :=
    filter (λ s, s ∉ currently_ignored_segment_ids) (segment_ids sc) in
  let db1 := add_to_ignored_segments db (with_segment_ids sc new_ignored_segment_ids) in
  let segment_ids_to_no_longer_ignore :=
    filter (λ s, s ∈ currently_ignored_segment_ids) (segment_ids sc) in
  remove_from_ignored_segments db1
    (with_segment_ids sc segment_ids_to_no_longer_ignore).

(** *** Loading an area's graph

    The server process: the tables, the graph objects allocated so far
    (an object's address is its index) and the single slot of
    [lru_cache(maxsize=1)] on [get_run_area_graph], holding the last
    arguments and the value returned for them. *)
Record process : Type := Process {
  tables : database;
  objects : list graph;
  graph_cache : option (string * string * option nat);
}.

(** The uncached body: the first matching row's graph, parsed into a new
    object; no row or a NULL graph gives [None] through [TypeError]. *)
Definition load_run_area_graph (p : process) (username area_name : string)
  : option nat * process :=
  let row := List.find (λ r, bool_decide (ra_username r = username)
                             && bool_decide (ra_area_name r = area_name))
                       (run_areas (tables p)) in
  match row ≫= ra_graph with
  | Some g =>
      let addr := length (objects p) in
      (Some addr,
       Process (tables p) (objects p ++ [g]) (Some (username, area_name, Some addr)))
  | None => (None, Process (tables p) (objects p) (Some (username, area_name, None)))
  end.

(** [get_run_area_graph]. *)
Definition get_run_area_graph (p : process) (username area_name : string)
  : option nat * process :=
  match graph_cache p with
  | Some (u, a, value) =>
      if bool_decide (u = username) && bool_decide (a = area_name)
      then (value, p)
      else load_run_area_graph p username area_name
  | None => load_run_area_graph p username area_name
  end.

(** *** Deleting and counting runs *)

Definition set_runs (db : database) (runs : list logged_run_row)
    (traversals : list segment_traversal_row) : database :=
  {| run_areas := run_areas db; logged_runs := runs;
     segment_traversals_table := traversals;
     ignored_segments := ignored_segments db |}.

(** [delete_run_by_id]. *)
Definition delete_run_by_id (db : database) (id : string) : database :=
  set_runs db (filter (λ r, lr_id r ≠ id) (logged_runs db))
              (filter (λ st, st_run_id st ≠ id) (segment_traversals_table db)).

(** [number_runs_in_date_range]: [COUNT(DISTINCT id)]. *)
Definition number_runs_in_date_range (db : database) (run_area : RunArea)
    (start_date end_date : option string) : nat :=
  length (remove_dups
    (lr_id <$> filter (λ r, make_date_clause start_date end_date (lr_date r) = true
                            ∧ run_in_area run_area r = true) (logged_runs db))).

(** [total_number_of_runs]. *)
Definition total_number_of_runs (db : database) (run_area : RunArea) : nat :=
  number_runs_in_date_range db run_area None None.

(** *** Run areas *)

(** [models.RunArea] with its four fields, as the area queries build
    it. *)
Record RunAreaRecord : Type := {
  rar_username : string;
  rar_area_name : string;
  rar_polygon : string;
  rar_active : bool;
}.

Definition record_of_row (r : run_area_row) : RunAreaRecord :=
  {| rar_username := ra_username r; rar_area_name := ra_area_name r;
     rar_polygon := ra_polygon r; rar_active := ra_active r |}.

Definition set_run_areas (db : database) (rows : list run_area_row) : database :=
  {| run_areas := rows; logged_runs := logged_runs db;
     segment_traversals_table := segment_traversals_table db;
     ignored_segments := ignored_segments db |}.

(** [get_active_area_for_user]: the first row of the user with
    [active = 1]; unpacking [None] is caught. *)
Definition get_active_area_for_user (db : database) (username : string)
  : option RunAreaRecord :=
  record_of_row <$>
    List.find (λ r, bool_decide (ra_username r = username) && ra_active r)
              (run_areas db).

(** [set_active_area_for_user]: the [UPDATE], then the query above. *)
Definition set_active_area_for_user (db : database) (username area_name : string)
  : option RunAreaRecord * database :=
  let db' :=
    set_run_areas db
      ((λ r, if bool_decide (ra_username r = username)
             then {| ra_username := ra_username r; ra_area_name := ra_area_name r;
                     ra_polygon := ra_polygon r; ra_graph := ra_graph r;
                     ra_active := bool_decide (ra_area_name r = area_name) |}
             else r) <$> run_areas db) in
  (get_active_area_for_user db' username, db').

(** [get_areas_for_user] with its default [artifacts_exist=False], as
    [insert_run_area] calls it. *)
Definition get_areas_for_user (db : database) (username : string)
  : list RunAreaRecord :=
  record_of_row <$> filter (λ r, ra_username r = username) (run_areas db).

(** [insert_run_area]: [RunAreaExistsError] is a [ValueError]. *)
Definition insert_run_area (db : database) (run_area : RunAreaRecord)
  : result database :=
  let existing_areas := get_areas_for_user db (rar_username run_area) in
  if existsb (λ area, bool_decide (rar_area_name run_area = rar_area_name area))
             existing_areas
  then Raise ValueError
  else Ok (set_run_areas db
             (run_areas db ++
              [ {| ra_username := rar_username run_area;
                   ra_area_name := rar_area_name run_area;
                   ra_polygon := rar_polygon run_area; ra_graph := None;
                   ra_active := rar_active run_area |} ])).

(** [insert_run_area_graph]: the tables change, the cache of
    [get_run_area_graph] is not touched. *)
Definition insert_run_area_graph (p : process) (username area_name : string)
    (g : graph) : process :=
  Process
    (set_run_areas (tables p)
       ((λ r, if bool_decide (ra_username r = username)
                 && bool_decide (ra_area_name r = area_name)
              then {| ra_username := ra_username r; ra_area_name := ra_area_name r;
                      ra_polygon := ra_polygon r; ra_graph := Some g;
                      ra_active := ra_active r |}
              else r) <$> run_areas (tables p)))
    (objects p) (graph_cache p).

End Backend.

(** * main.py: the point-to-point router *)

Module Main.

(** [models.SnapDataForRouting]. *)
Record SnapDataForRouting : Type := {
  from_segment_id : string;
  from_segment_distance_along_segment_metres : Q;
  from_segment_start_node : Z;
  from_segment_end_node : Z;
  to_segment_id : string;
  to_segment_distance_along_segment_metres : Q;
  to_segment_start_node : Z;
  to_segment_end_node : Z;
}.

(** The four keyword arguments the router prepares for a partial
    traversal. *)
Record segment_data : Type := SegmentData {
  start_distance_metres : Q;
  end_distance_metres : Q;
  starts_at_end : bool;
  ends_at_end : bool;
}.

(** [models.SegmentTraversal] and [models.FullSegmentTraversal]. *)
Inductive traversal : Type :=
  | SegmentTraversal (segment_id : string) (data : segment_data)
  | FullSegmentTraversal (start_node end_node : Z) (length_metres : Q).

Definition Qgtb (x y : Q) : bool := negb (Qle_bool x y).
Definition Qltb (x y : Q) : bool := negb (Qle_bool y x).

(** [distance_at_end_of_segment], with its default threshold 0.95.  The
    comparison is over exact rationals; in binary floating point the
    product can be rounded, which matters only for a distance at the
    threshold itself. *)
Definition distance_at_end_of_segment
    (segment_length_metres distance_along_segment_metres : Q) : bool :=
  Qgtb distance_along_segment_metres (segment_length_metres * (95 # 100)).

(** [list(zip(nodes, nodes[1:]))]. *)
Definition hops (nodes_in_route : list Z) : list (Z * Z) :=
  zip nodes_in_route (tail nodes_in_route).

(** [sum(graph.edges[(u, v, 0)]["length"] for u, v in edges)]: the
    generator raises at the first edge without key 0. *)
Fixpoint sum_lengths (g : graph) (acc : Q) (edges : list (Z * Z)) : result Q :=
  match edges with
  | [] => Ok acc
  | (u, v) :: edges' =>
      l ←r edge_length g u v; sum_lengths g (acc + l)%Q edges'
  end.

(** The loop state of the search over node pairs; [None] for the length
    is [float("inf")]. *)
Record best : Type := Best {
  min_length_metres : option Q;
  min_length_path : list (Z * Z);
  min_path_segment_data : option (segment_data * segment_data);
}.

Definition candidate : Type := Z * Z * segment_data * segment_data.

Definition node_pairs (snap_data : SnapDataForRouting)
    (from_segment_length_metres to_segment_length_metres : Q) : list candidate :=
  let d_from := from_segment_distance_along_segment_metres snap_data in
  let d_to := to_segment_distance_along_segment_metres snap_data in
  [ (from_segment_start_node snap_data, to_segment_start_node snap_data,
     SegmentData d_from 0 false false,
     SegmentData 0 d_to false false);
    (from_segment_start_node snap_data, to_segment_end_node snap_data,
     SegmentData d_from 0 false false,
     SegmentData to_segment_length_metres d_to false false);
    (from_segment_end_node snap_data, to_segment_start_node snap_data,
     SegmentData d_from from_segment_length_metres false true,
     SegmentData 0 d_to false false);
    (from_segment_end_node snap_data, to_segment_end_node snap_data,
     SegmentData d_from from_segment_length_metres false true,
     SegmentData to_segment_length_metres d_to false false) ].

(** [models.CurrentUser]. *)
Record CurrentUser : Type := {
  cu_username : option string;
  active_area_name : option string;
  polygon : option string;
}.

(** [CurrentUser.make_run_area]: the [RunArea] constructor validates that
    the three fields are strings (pydantic's [ValidationError] is a
    [ValueError]). *)
Definition make_run_area (current_user : CurrentUser) : result Backend.RunArea :=
  match cu_username current_user, active_area_name current_user, polygon current_user with
  | Some u, Some a, Some _ => Ok {| Backend.username := u; Backend.area_name := a |}
  | _, _, _ => Raise ValueError
  end.

Fixpoint remove_first (P : edge → bool) (l : list edge) : list edge :=
  match l with
  | [] => []
  | e :: l' => if P e then l' else e :: remove_first P l'
  end.

(** [graph.remove_edge(u, v)] without a key: the edge inserted last
    between the two nodes goes; [remove_edges_from] swallows the error
    when there is none. *)
Definition remove_edge (g : graph) (uv : Z * Z) : graph :=
  Graph (g_nodes g) (List.rev (remove_first (joins uv.1 uv.2) (List.rev (g_edges g)))).

Definition remove_edges_from (g : graph) (to_remove : list (Z * Z)) : graph :=
  fold_left remove_edge to_remove g.

(** [data.get("segment_id") in ignored_segment_ids]. *)
Definition is_ignored (ignored_segment_ids : list string) (e : edge) : bool :=
  match e_segment_id e with
  | Some s => bool_decide (s ∈ ignored_segment_ids)
  | None => false
  end.

(** The pairs collected in [to_remove]. *)
Definition edges_to_remove (g : graph) (ignored_segment_ids : list string) : list (Z * Z) :=
  (λ e, (e_u e, e_v e)) <$>
    filter (λ e, is_ignored ignored_segment_ids e = true) (g_edges g).

(** [get_routing_graph]: the returned graph is the object
    [get_run_area_graph] gave, edited in place when [respect_ignored]. *)
Definition get_routing_graph (p : Backend.process) (current_user : CurrentUser)
    (respect_ignored : bool) : result (option nat * Backend.process) :=
  run_area ←r make_run_area current_user;
  let '(graph, p1) :=
    Backend.get_run_area_graph p (Backend.username run_area) (Backend.area_name run_area) in
  if respect_ignored then
    let ignored_segment_ids := Backend.ignored_segment_ids (Backend.tables p1) run_area in
    match graph with
    | None => Raise AttributeError
    | Some addr =>
        match Backend.objects p1 !! addr with
        | None => Raise AttributeError
        | Some g =>
            let g' := remove_edges_from g (edges_to_remove g ignored_segment_ids) in
            Ok (graph,
                Backend.Process (Backend.tables p1)
                  (<[addr := g']> (Backend.objects p1)) (Backend.graph_cache p1))
        end
    end
  else Ok (graph, p1).

(** The graph object behind a loaded reference. *)
Definition deref (p : Backend.process) (ref : option nat) : option graph :=
  addr ← ref; Backend.objects p !! addr.

Section Router.

(** [networkx.algorithms.shortest_path(graph, source, target,
    weight="length")]: the node list of a shortest path, or an
    exception ([NetworkXNoPath], [NodeNotFound]). *)
Variable shortest_path : graph → Z → Z → result (list Z).

(** Which element [common_nodes.pop()] yields when the set has the two
    given elements. *)
Variable pop_first : Z → Z → bool.

(** The body of the [try]: the candidate's path and total length. *)
Definition try_pair (g : graph) (c : candidate) : result (Q * list (Z * Z)) :=
  let '(source, target, start_segment_data, end_segment_data) := c in
  nodes_in_route ←r shortest_path g source target;
  let edges := hops nodes_in_route in
  let start_length_metres :=
    (Qabs (start_distance_metres start_segment_data
           - end_distance_metres start_segment_data)
     + Qabs (start_distance_metres end_segment_data
             - end_distance_metres end_segment_data))%Q in
  s ←r sum_lengths g 0 edges;
  Ok ((start_length_metres + s)%Q, edges).

Definition is_shorter (path_length_metres : Q) (min_length : option Q) : bool :=
  match min_length with
  | None => true
  | Some m => Qltb path_length_metres m
  end.

(** One iteration of the loop over [node_pairs]; [except Exception:
    pass] leaves the state as it was. *)
Definition visit_pair (g : graph) (b : best) (c : candidate) : best :=
  match try_pair g c with
  | Ok (path_length_metres, edges) =>
      if is_shorter path_length_metres (min_length_metres b)
      then Best (Some path_length_metres) edges (Some (c.1.2, c.2))
      else b
  | Raise _ => b
  end.

Definition search (g : graph) (cs : list candidate) : best :=
  fold_left (visit_pair g) cs (Best None [] None).

Fixpoint full_traversals (g : graph) (edges : list (Z * Z)) : result (list traversal) :=
  match edges with
  | [] => Ok []
  | (start_node, end_node) :: edges' =>
      l ←r edge_length g start_node end_node;
      rest ←r full_traversals g edges';
      Ok (FullSegmentTraversal start_node end_node l :: rest)
  end.

(** [from_segment_nodes.intersection(to_segment_nodes)], as the list of
    its distinct elements. *)
Definition common_nodes (snap_data : SnapDataForRouting) : list Z :=
  let from_nodes :=
    if Z.eqb (from_segment_start_node snap_data) (from_segment_end_node snap_data)
    then [from_segment_start_node snap_data]
    else [from_segment_start_node snap_data; from_segment_end_node snap_data] in
  filter (λ n, n = to_segment_start_node snap_data ∨ n = to_segment_end_node snap_data)
         from_nodes.

Definition set_pop (s : list Z) : option Z :=
  match s with
  | [] => None
  | [a] => Some a
  | a :: b :: _ => Some (if pop_first a b then a else b)
  end.

(** [route], on the graph that [get_routing_graph] returned. *)
Definition route (g : graph) (snap_data : SnapDataForRouting) : result (list traversal) :=
  let d_from := from_segment_distance_along_segment_metres snap_data in
  let d_to := to_segment_distance_along_segment_metres snap_data in
  if decide (from_segment_id snap_data = to_segment_id snap_data) then
    segment_length_metres ←r
      edge_length g (from_segment_start_node snap_data) (from_segment_end_node snap_data);
    Ok [SegmentTraversal (to_segment_id snap_data)
          (SegmentData d_from d_to
             (distance_at_end_of_segment segment_length_metres d_from)
             (distance_at_end_of_segment segment_length_metres d_to))]
  else
    from_segment_length_metres ←r
      edge_length g (from_segment_start_node snap_data) (from_segment_end_node snap_data);
    to_segment_length_metres ←r
      edge_length g (to_segment_start_node snap_data) (to_segment_end_node snap_data);
    match set_pop (common_nodes snap_data) with
    | Some common_node =>
        let first :=
          if Z.eqb common_node (from_segment_end_node snap_data)
          then SegmentData d_from from_segment_length_metres false true
          else SegmentData d_from 0 false false in
        let second :=
          if Z.eqb common_node (to_segment_start_node snap_data)
          then SegmentData 0 d_to false
                 (distance_at_end_of_segment to_segment_length_metres d_to)
          else SegmentData to_segment_length_metres d_to true false in
        Ok [SegmentTraversal (from_segment_id snap_data) first;
            SegmentTraversal (to_segment_id snap_data) second]
    | None =>
        let b := search g (node_pairs snap_data from_segment_length_metres
                                      to_segment_length_metres) in
        match min_length_path b with
        | [] => Ok []
        | _ :: _ =>
            match min_path_segment_data b with
            | None => Raise TypeError
            | Some (start_data, end_data) =>
                middle ←r full_traversals g (min_length_path b);
                Ok (SegmentTraversal (from_segment_id snap_data) start_data
                      :: middle
                      ++ [SegmentTraversal (to_segment_id snap_data) end_data])
            end
        end
    end.

End Router.

(** The loop of the [/first_seen] handler over the rows
    [(date, segment_id)] that [db.first_seen] returned: the state is
    [current_date], [current_segments] and the dict built so far. *)
Definition first_seen_step
    (st : option string * list string * gmap string (list string))
    (traversal : string * string)
  : option string * list string * gmap string (list string) :=
  let '(current_date, current_segments, first_seen_by_date) := st in
  match current_date with
  | None => (Some traversal.1, current_segments ++ [traversal.2], first_seen_by_date)
  | Some d =>
      if decide (d = traversal.1)
      then (Some d, current_segments ++ [traversal.2], first_seen_by_date)
      else (Some traversal.1, [traversal.2], <[d := current_segments]> first_seen_by_date)
  end.

(** [first_seen]: an empty result gives [{}]; otherwise the last group is
    stored after the loop (by then [current_date] is a date). *)
Definition first_seen (first_traversals : list (string * string))
  : gmap string (list string) :=
  match first_traversals with
  | [] => ∅
  | _ :: _ =>
      let '(current_date, current_segments, first_seen_by_date) :=
        fold_left first_seen_step first_traversals (None, [], ∅) in
      match current_date with
      | Some d => <[d := current_segments]> first_seen_by_date
      | None => first_seen_by_date
      end
  end.

(** *** A shortest-path routine to run the router on concrete graphs

    Bellman-Ford over the edge list, both directions of every edge, with
    the path kept next to each distance (last node first). *)

Definition relax (tbl : gmap Z (Q * list Z)) (u v : Z) (w : Q) : gmap Z (Q * list Z) :=
  match tbl !! u with
  | None => tbl
  | Some (d, path) =>
      match tbl !! v with
      | Some (d', _) =>
          if Qltb (d + w) d' then <[v := ((d + w)%Q, v :: path)]> tbl else tbl
      | None => <[v := ((d + w)%Q, v :: path)]> tbl
      end
  end.

Definition relax_edge (tbl : gmap Z (Q * list Z)) (e : edge) : gmap Z (Q * list Z) :=
  relax (relax tbl (e_u e) (e_v e) (e_length e)) (e_v e) (e_u e) (e_length e).

Fixpoint relax_rounds (n : nat) (es : list edge) (tbl : gmap Z (Q * list Z))
  : gmap Z (Q * list Z) :=
  match n with
  | O => tbl
  | S n' => relax_rounds n' es (fold_left relax_edge es tbl)
  end.

Definition has_node (g : graph) (n : Z) : bool :=
  existsb (λ p, Z.eqb (fst p) n) (g_nodes g).

Definition bellman_ford_path (g : graph) (source target : Z) : result (list Z) :=
  if has_node g source && has_node g target then
    match relax_rounds (length (g_nodes g)) (g_edges g) {[ source := (0%Q, [source]) ]}
          !! target with
    | Some (_, path) => Ok (List.rev path)
    | None => Raise NetworkXNoPath
    end
  else Raise NodeNotFound.

(** The [/route] handler: load the graph without ignore filtering, then
    route on it.  With no graph stored the first subscript fails. *)
Definition route_handler (shortest_path : graph → Z → Z → result (list Z))
    (pop_first : Z → Z → bool) (p : Backend.process) (current_user : CurrentUser)
    (snap_data : SnapDataForRouting) : result (list traversal * Backend.process) :=
  '(graph, p') ←r get_routing_graph p current_user false;
  match deref p' graph with
  | Some g => r ←r route shortest_path pop_first g snap_data; Ok (r, p')
  | None =>
      if decide (from_segment_id snap_data = to_segment_id snap_data)
      then Raise AttributeError else Raise TypeError
  end.

End Main.

(** * Part II: terms of the properties, and example data *)

Section SegmentIdsTerms.
Import Osm.

(** The number of rows before position [i] whose cleaned id is [k]. *)
Definition occurrences_before (df : list (row osm_id)) (i : nat) (k : string) : nat :=
  length (filter (λ r, clean_osm_ids (segment_id r) = k) (take i df)).

Definition suffixed (k : string) (c : nat) : string := k +:+ "_" +:+ pretty c.

End SegmentIdsTerms.

(** What the loop of [make_sure_geometries_agree_with_start_end_nodes]
    does with one feature, in one piece: both ends of the geometry are
    compared with the position of [start_node]. *)
Definition oriented (g : graph) (f : Osm.feature) : option Osm.feature :=
  match node_lng_lat g (Osm.f_start_node f),
        Osm.first_coordinate (Osm.f_coordinates f),
        Osm.last_coordinate (Osm.f_coordinates f) with
  | Ok pos, Ok c0, Ok cn =>
      if floats_eqb cn pos
      then Some (Osm.with_coordinates f (List.rev (Osm.f_coordinates f)))
      else if floats_eqb c0 pos then Some f else None
  | _, _, _ => None
  end.

(** The orientation rule in the words of the specification: the first
    coordinate is compared with the position of [start_node], then with
    the position of [end_node]. *)
Definition first_coordinate_at (g : graph) (f : Osm.feature) (n : Z) : bool :=
  match Osm.first_coordinate (Osm.f_coordinates f), node_lng_lat g n with
  | Ok c, Ok pos => floats_eqb c pos
  | _, _ => false
  end.

Definition oriented_by_first_coordinate (g : graph) (f : Osm.feature)
  : option Osm.feature :=
  if first_coordinate_at g f (Osm.f_start_node f) then Some f
  else if first_coordinate_at g f (Osm.f_end_node f)
       then Some (Osm.with_coordinates f (List.rev (Osm.f_coordinates f)))
       else None.

(** The loop raises on a feature whose start node is unknown to the
    graph or whose geometry is empty. *)
Definition feature_ok (g : graph) (f : Osm.feature) : Prop :=
  (∃ pos, node_lng_lat g (Osm.f_start_node f) = Ok pos) ∧ Osm.f_coordinates f ≠ [].

(** A graph with nodes 1 at (0,0) and 2 at (1,1), and two features of
    the edge 1-2: the first starts at the end node's position and ends
    elsewhere, the second ends at the start node's position and starts
    elsewhere. *)
Definition two_node_graph : graph :=
  Graph [(1, (0, 0)%Q); (2, (1, 1)%Q)] [Edge 1 2 0 10 (Some "7_0")].

Definition feature_from_end : Osm.feature :=
  Osm.Feature 1 2 (Some "7_0") [[1; 1]; [2; 2]]%Q.

Definition feature_to_start : Osm.feature :=
  Osm.Feature 1 2 (Some "7_0") [[5; 5]; [0; 0]]%Q.

Section IgnoredSegmentsTerms.
Import Backend.

(** The ignored set of an area, as a set. *)
Definition ignored_set (db : database) (run_area : RunArea) : gset string :=
  list_to_set (ignored_segment_ids db run_area).

Definition area_of (sc : SegmentCollection) : RunArea :=
  {| username := sc_username sc; area_name := sc_area_name sc |}.

End IgnoredSegmentsTerms.

Section StoreRunTerms.
Import Backend.

(** Decimal digits and the strings they spell. *)
Definition digit_char (d : Z) : ascii := ascii_of_nat (48 + Z.to_nat d).

Definition digits_value (ds : list Z) : Z := fold_left (λ acc d, 10 * acc + d) ds 0.

Definition digits_string (ds : list Z) : string :=
  String.string_of_list_ascii (digit_char <$> ds).

Definition is_digit (d : Z) : Prop := 0 ≤ d ≤ 9.

(** The duration text [HH:MM:SS.F]. *)
Definition duration_text (hh mm ss f : list Z) : string :=
  digits_string hh +:+ ":" +:+ digits_string mm +:+ ":" +:+ digits_string ss
  +:+ "." +:+ digits_string f.

(** The runs of an area stored for a date. *)
Definition runs_on (db : database) (run_area : RunArea) (d : string)
  : list logged_run_row :=
  filter (λ r, lr_date r = d ∧ run_in_area run_area r = true) (logged_runs db).

(** The row and the tables [store_run] leaves behind when it accepts a
    run. *)
Definition stored_row (run_id : string) (run_area : RunArea) (run : LoggedRun)
    (duration_minutes : option Q) : logged_run_row :=
  {| lr_id := run_id; lr_username := username run_area;
     lr_area_name := area_name run_area; lr_date := date run;
     lr_distance_miles := distance_miles run;
     lr_duration_minutes := duration_minutes;
     lr_comments := comments run; lr_linestring := linestring run |}.

Definition stored_db (db : database) (run_id : string) (run_area : RunArea)
    (run : LoggedRun) (duration_minutes : option Q) : database :=
  {| run_areas := run_areas db;
     logged_runs := logged_runs db ++ [stored_row run_id run_area run duration_minutes];
     segment_traversals_table :=
       segment_traversals_table db ++
       ((λ kv, {| st_run_id := run_id; st_segment_id := kv.1; st_traversals := kv.2 |})
          <$> segment_traversals run);
     ignored_segments := ignored_segments db |}.

(** The run is not turned away as a duplicate. *)
Definition accepted (db : database) (run_area : RunArea) (run : LoggedRun) : Prop :=
  allow_multiple run = true ∨ exists_run_on_date db run_area (date run) = false.

End StoreRunTerms.

Arguments digit_char : simpl never.

(** An empty store, an area, and four runs on the same date: one with a
    duration and no traversals, one whose duration has a one-digit hour,
    one bare, one with a traversal. *)
Definition empty_db : Backend.database :=
  {| Backend.run_areas := []; Backend.logged_runs := [];
     Backend.segment_traversals_table := []; Backend.ignored_segments := [] |}.

Definition some_area : Backend.RunArea :=
  {| Backend.username := "ann"; Backend.area_name := "town" |}.

Definition timed_run : Backend.LoggedRun :=
  {| Backend.date := "2021-06-01"; Backend.distance_miles := 5;
     Backend.duration := Some "01:30:15.500"; Backend.comments := None;
     Backend.linestring := None; Backend.allow_multiple := false;
     Backend.segment_traversals := [] |}.

Definition short_duration_run : Backend.LoggedRun :=
  {| Backend.date := "2021-06-01"; Backend.distance_miles := 5;
     Backend.duration := Some "1:30:15.5"; Backend.comments := None;
     Backend.linestring := None; Backend.allow_multiple := false;
     Backend.segment_traversals := [] |}.

Definition run_without_segments : Backend.LoggedRun :=
  {| Backend.date := "2021-06-01"; Backend.distance_miles := 5;
     Backend.duration := None; Backend.comments := None;
     Backend.linestring := None; Backend.allow_multiple := false;
     Backend.segment_traversals := [] |}.

Definition second_run : Backend.LoggedRun :=
  {| Backend.date := "2021-06-01"; Backend.distance_miles := 3;
     Backend.duration := None; Backend.comments := None;
     Backend.linestring := None; Backend.allow_multiple := false;
     Backend.segment_traversals := [("7_0", 1)] |}.

(** A stored graph of three nodes in a line; the user ignores the
    segment of its first edge. *)
Definition line_graph : graph :=
  Graph [(1, (0, 0)%Q); (2, (1, 0)%Q); (3, (2, 0)%Q)]
        [Edge 1 2 0 10 (Some "7_0"); Edge 2 3 0 10 (Some "8_0")].

Definition ann : Main.CurrentUser :=
  {| Main.cu_username := Some "ann"; Main.active_area_name := Some "town";
     Main.polygon := Some "POLYGON((0 0, 2 0, 2 1, 0 0))" |}.

Definition server_with_ignored_segment : Backend.process :=
  Backend.Process
    {| Backend.run_areas :=
         [ {| Backend.ra_username := "ann"; Backend.ra_area_name := "town";
              Backend.ra_polygon := "POLYGON((0 0, 2 0, 2 1, 0 0))";
              Backend.ra_graph := Some line_graph; Backend.ra_active := true |} ];
       Backend.logged_runs := [];
       Backend.segment_traversals_table := [];
       Backend.ignored_segments :=
         [ {| Backend.is_username := "ann"; Backend.is_area_name := "town";
              Backend.is_segment_id := "7_0" |} ] |}
    [] None.

(** The two segments of the snap data have no node in common. *)
Definition no_shared_node (snap_data : Main.SnapDataForRouting) : Prop :=
  Main.from_segment_start_node snap_data ≠ Main.to_segment_start_node snap_data
  ∧ Main.from_segment_start_node snap_data ≠ Main.to_segment_end_node snap_data
  ∧ Main.from_segment_end_node snap_data ≠ Main.to_segment_start_node snap_data
  ∧ Main.from_segment_end_node snap_data ≠ Main.to_segment_end_node snap_data.

(** [n] is an end of both segments. *)
Definition shared_node (snap_data : Main.SnapDataForRouting) (n : Z) : Prop :=
  (n = Main.from_segment_start_node snap_data ∨ n = Main.from_segment_end_node snap_data)
  ∧ (n = Main.to_segment_start_node snap_data ∨ n = Main.to_segment_end_node snap_data).

(** A graph with one segment of 50 metres, and two points on it. *)
Definition one_segment_graph : graph :=
  Graph [(1, (0, 0)%Q); (2, (1, 0)%Q)] [Edge 1 2 0 50 (Some "S")].

Definition snap_10_40 : Main.SnapDataForRouting :=
  {| Main.from_segment_id := "S";
     Main.from_segment_distance_along_segment_metres := 10;
     Main.from_segment_start_node := 1; Main.from_segment_end_node := 2;
     Main.to_segment_id := "S";
     Main.to_segment_distance_along_segment_metres := 40;
     Main.to_segment_start_node := 1; Main.to_segment_end_node := 2 |}.

(** Segment A from node 1 to node 2 (30 m) and segment B from node 2 to
    node 3 (20 m): the shared node ends A and starts B. *)
Definition two_segment_graph : graph :=
  Graph [(1, (0, 0)%Q); (2, (1, 0)%Q); (3, (2, 0)%Q)]
        [Edge 1 2 0 30 (Some "A"); Edge 2 3 0 20 (Some "B")].

Definition snap_A_to_B : Main.SnapDataForRouting :=
  {| Main.from_segment_id := "A";
     Main.from_segment_distance_along_segment_metres := 12;
     Main.from_segment_start_node := 1; Main.from_segment_end_node := 2;
     Main.to_segment_id := "B";
     Main.to_segment_distance_along_segment_metres := 5;
     Main.to_segment_start_node := 2; Main.to_segment_end_node := 3 |}.

(** Two segments in different components of the graph. *)
Definition two_component_graph : graph :=
  Graph [(1, (0, 0)%Q); (2, (1, 0)%Q); (3, (5, 5)%Q); (4, (6, 5)%Q)]
        [Edge 1 2 0 30 (Some "A"); Edge 3 4 0 20 (Some "C")].

Definition snap_A_to_C : Main.SnapDataForRouting :=
  {| Main.from_segment_id := "A";
     Main.from_segment_distance_along_segment_metres := 12;
     Main.from_segment_start_node := 1; Main.from_segment_end_node := 2;
     Main.to_segment_id := "C";
     Main.to_segment_distance_along_segment_metres := 5;
     Main.to_segment_start_node := 3; Main.to_segment_end_node := 4 |}.

(** The length of a partial traversal with the given data: from the
    snapped point to the chosen end of the segment, or back. *)
Definition remaining (d : Main.segment_data) : Q :=
  Qabs (Main.start_distance_metres d - Main.end_distance_metres d).

(** The length the router reads for a hop: that of edge [(u, v, 0)]. *)
Definition hop_length (g : graph) (uv : Z * Z) : Q :=
  match edge_length g uv.1 uv.2 with
  | Ok l => l
  | Raise _ => 0
  end.

Definition path_length (g : graph) (p : list Z) : Q :=
  foldr (λ uv acc, hop_length g uv + acc)%Q 0%Q (Main.hops p).

(** The total length of routing through a candidate pair of segment ends
    along the node path [p]. *)
Definition total_length (g : graph) (c : Main.candidate) (p : list Z) : Q :=
  (remaining c.1.2 + remaining c.2 + path_length g p)%Q.

Definition traversal_length (t : Main.traversal) : Q :=
  match t with
  | Main.SegmentTraversal _ d => remaining d
  | Main.FullSegmentTraversal _ _ l => l
  end.

Definition route_length (r : list Main.traversal) : Q :=
  foldr (λ t acc, traversal_length t + acc)%Q 0%Q r.

(** [p] leads from [s] to [t] over edges with key 0. *)
Definition walk (g : graph) (s t : Z) (p : list Z) : Prop :=
  head p = Some s ∧ last p = Some t
  ∧ Forall (λ uv, ∃ l, edge_length g uv.1 uv.2 = Ok l) (Main.hops p).

Definition full_traversal (g : graph) (uv : Z * Z) : Main.traversal :=
  Main.FullSegmentTraversal uv.1 uv.2 (hop_length g uv).

Section SearchTerms.
Variable shortest_path : graph → Z → Z → result (list Z).
Variable g : graph.

(** What the loop over the node pairs has found after the pairs [cs]. *)
Definition best_of (cs : list Main.candidate) (b : Main.best) : Prop :=
  (b = Main.Best None [] None ∧ ∀ c, c ∈ cs → ∃ e, Main.try_pair shortest_path g c = Raise e)
  ∨ ∃ (i : nat) c len edges,
      cs !! i = Some c ∧ Main.try_pair shortest_path g c = Ok (len, edges)
      ∧ b = Main.Best (Some len) edges (Some (c.1.2, c.2))
      ∧ ∀ (j : nat) c' len' edges',
          cs !! j = Some c' → Main.try_pair shortest_path g c' = Ok (len', edges') →
          (len <= len')%Q ∧ ((j < i)%nat → (len < len')%Q).

End SearchTerms.

(** The square N1-N2-N3-N4-N1 with sides of 10 m; the start point is
    2 m from N1 on N1-N2, the end point 3 m from N3 on N3-N4. *)
Definition square_graph : graph :=
  Graph [(1, (0, 0)%Q); (2, (1, 0)%Q); (3, (1, 1)%Q); (4, (0, 1)%Q)]
        [Edge 1 2 0 10 (Some "a_0"); Edge 2 3 0 10 (Some "b_0");
         Edge 3 4 0 10 (Some "c_0"); Edge 4 1 0 10 (Some "d_0")].

Definition snap_square : Main.SnapDataForRouting :=
  {| Main.from_segment_id := "a_0";
     Main.from_segment_distance_along_segment_metres := 2;
     Main.from_segment_start_node := 1; Main.from_segment_end_node := 2;
     Main.to_segment_id := "c_0";
     Main.to_segment_distance_along_segment_metres := 3;
     Main.to_segment_start_node := 3; Main.to_segment_end_node := 4 |}.

(** The id is not used by any stored run or traversal row. *)
Definition fresh_run_id (db : Backend.database) (run_id : string) : Prop :=
  (∀ r, r ∈ Backend.logged_runs db → Backend.lr_id r ≠ run_id)
  ∧ (∀ st, st ∈ Backend.segment_traversals_table db → Backend.st_run_id st ≠ run_id).

(** A stored run of the area on the date, with one of its traversal
    rows. *)
Definition run_with_traversal (db : Backend.database) (run_area : Backend.RunArea)
    (d : string) (r : Backend.logged_run_row) (st : Backend.segment_traversal_row)
  : Prop :=
  r ∈ Backend.logged_runs db ∧ st ∈ Backend.segment_traversals_table db
  ∧ Backend.st_run_id st = Backend.lr_id r
  ∧ Backend.lr_date r = d ∧ Backend.run_in_area run_area r = true.

(** A store holding one run with one traversal. *)
Definition one_run_db : Backend.database :=
  stored_db empty_db "r0" some_area second_run None.

(** No two rows of [run_areas] carry the same user and area name. *)
Definition areas_unique (db : Backend.database) : Prop :=
  NoDup ((λ r, (Backend.ra_username r, Backend.ra_area_name r)) <$> Backend.run_areas db).

(** Everything of a [run_areas] row but its [active] flag. *)
Definition area_without_flag (r : Backend.run_area_row)
  : string * string * string * option graph :=
  (Backend.ra_username r, Backend.ra_area_name r, Backend.ra_polygon r,
   Backend.ra_graph r).

(** A store where ann has two areas, the first one active. *)
Definition two_area_db : Backend.database :=
  {| Backend.run_areas :=
       [ {| Backend.ra_username := "ann"; Backend.ra_area_name := "town";
            Backend.ra_polygon := "POLYGON((0 0, 2 0, 2 1, 0 0))";
            Backend.ra_graph := None; Backend.ra_active := true |};
         {| Backend.ra_username := "ann"; Backend.ra_area_name := "hills";
            Backend.ra_polygon := "POLYGON((5 5, 7 5, 7 6, 5 5))";
            Backend.ra_graph := None; Backend.ra_active := false |} ];
     Backend.logged_runs := []; Backend.segment_traversals_table := [];
     Backend.ignored_segments := [] |}.

(** A run timed without a fractional part. *)
Definition whole_seconds_run : Backend.LoggedRun :=
  {| Backend.date := "2021-06-01"; Backend.distance_miles := 5;
     Backend.duration := Some "00:30:00"; Backend.comments := None;
     Backend.linestring := None; Backend.allow_multiple := false;
     Backend.segment_traversals := [] |}.

(** A server whose area has no graph yet. *)
Definition server_without_graph : Backend.process :=
  Backend.Process two_area_db [] None.

(** Everything of an edge but its segment id. *)
Definition edge_shape (e : edge) : Z * Z * Z * Q :=
  (e_u e, e_v e, e_key e, e_length e).

(** The two node pairs are the same, in either order. *)
Definition same_pair (u v u' v' : Z) : Prop :=
  (u = u' ∧ v = v') ∨ (u = v' ∧ v = u').

(** The segment id carried by edge [(u, v, 0)], if the edge is there. *)
Definition segment_id_of_edge (g : graph) (u v : Z) : option (option string) :=
  match get_edge g u v 0 with
  | Ok e => Some (e_segment_id e)
  | Raise _ => None
  end.

(** A feature of the edge 1-2 that is already oriented, carrying
    another id than the graph does. *)
Definition feature_renamed : Osm.feature :=
  Osm.Feature 1 2 (Some "9_0") [[0; 0]; [1; 1]]%Q.

(** A feature whose start node the graph does not know. *)
Definition feature_astray : Osm.feature :=
  Osm.Feature 8 2 (Some "7_0") [[0; 0]; [1; 1]]%Q.

(** No two edges of the graph join the same pair of nodes. *)
Definition no_parallel_edges (g : graph) : Prop :=
  ∀ u v, (length (filter (λ e, joins u v e = true) (g_edges g)) ≤ 1)%nat.

(** The edge joins none of the listed node pairs. *)
Definition joins_none (pairs : list (Z * Z)) (e : edge) : bool :=
  forallb (λ uv, negb (joins uv.1 uv.2 e)) pairs.

(** The segments listed for a date among the rows. *)
Definition segments_on (d : string) (rows : list (string * string)) : list string :=
  snd <$> filter (λ t, t.1 = d) rows.

(** The rows are in ascending order of date. *)
Definition by_date (rows : list (string * string)) : Prop :=
  StronglySorted (λ x y, String.le x.1 y.1) rows.

(** The length of the segment with the given id: that of the edge
    carrying the id. *)
Definition segment_length (g : graph) (sid : string) : option Q :=
  e_length <$> List.find (λ e, bool_decide (e_segment_id e = Some sid)) (g_edges g).

(** Two roads between nodes 1 and 2, segment P (key 0, 30 m) and segment
    Q (key 1, 40 m), and segment B from node 2 to node 3 (20 m). *)
Definition parallel_graph : graph :=
  Graph [(1, (0, 0)%Q); (2, (1, 0)%Q); (3, (2, 0)%Q)]
        [Edge 1 2 0 30 (Some "P"); Edge 1 2 1 40 (Some "Q");
         Edge 2 3 0 20 (Some "B")].

(** Two points on Q, 29 m and 37 m from its start. *)
Definition snap_on_Q : Main.SnapDataForRouting :=
  {| Main.from_segment_id := "Q";
     Main.from_segment_distance_along_segment_metres := 29;
     Main.from_segment_start_node := 1; Main.from_segment_end_node := 2;
     Main.to_segment_id := "Q";
     Main.to_segment_distance_along_segment_metres := 37;
     Main.to_segment_start_node := 1; Main.to_segment_end_node := 2 |}.

(** A point on Q, 35 m from its start, and one on B, 5 m from its
    start. *)
Definition snap_Q_to_B : Main.SnapDataForRouting :=
  {| Main.from_segment_id := "Q";
     Main.from_segment_distance_along_segment_metres := 35;
     Main.from_segment_start_node := 1; Main.from_segment_end_node := 2;
     Main.to_segment_id := "B";
     Main.to_segment_distance_along_segment_metres := 5;
     Main.to_segment_start_node := 2; Main.to_segment_end_node := 3 |}.

(** The least length among the edges that join the two nodes of a hop:
    what the hop weighs on a shortest path by [length]. *)
Definition least_edge_length (g : graph) (uv : Z * Z) : option Q :=
  foldr (λ e acc,
           if joins uv.1 uv.2 e
           then match acc with
                | Some m => Some (if Qle_bool (e_length e) m then e_length e else m)
                | None => Some (e_length e)
                end
           else acc)
        None (g_edges g).

(** The length of a node path, each hop over its shortest edge. *)
Definition shortest_length (g : graph) (p : list Z) : Q :=
  foldr (λ uv acc, default 0%Q (least_edge_length g uv) + acc)%Q 0%Q (Main.hops p).

(** Segment A from node 1 to node 2 and segment B from node 3 to node 4
    (10 m each); nodes 2 and 3 are joined by a long road (key 0, 100 m)
    and a short one (key 1, 5 m), nodes 1 and 4 by a road of 20 m.  The
    points are half way along A and B. *)
Definition detour_graph : graph :=
  Graph [(1, (0, 0)%Q); (2, (1, 0)%Q); (3, (2, 0)%Q); (4, (3, 0)%Q)]
        [Edge 1 2 0 10 (Some "A"); Edge 3 4 0 10 (Some "B");
         Edge 2 3 0 100 (Some "M"); Edge 2 3 1 5 (Some "N");
         Edge 1 4 0 20 (Some "D")].

Definition snap_detour : Main.SnapDataForRouting :=
  {| Main.from_segment_id := "A";
     Main.from_segment_distance_along_segment_metres := 5;
     Main.from_segment_start_node := 1; Main.from_segment_end_node := 2;
     Main.to_segment_id := "B";
     Main.to_segment_distance_along_segment_metres := 5;
     Main.to_segment_start_node := 3; Main.to_segment_end_node := 4 |}.

(** The four pairs of segment ends with the partial traversals that go
    with them: the start segment is left at its start (down to 0) or at
    its end (up to its length, [ends_at_end]); the end segment is entered
    at its start (from 0) or at its end (from its length). *)
Definition leave_at_start (d : Q) : Main.segment_data := Main.SegmentData d 0 false false.
Definition leave_at_end (d L : Q) : Main.segment_data := Main.SegmentData d L false true.
Definition enter_at_start (d : Q) : Main.segment_data := Main.SegmentData 0 d false false.
Definition enter_at_end (d L : Q) : Main.segment_data := Main.SegmentData L d false false.

Definition four_pairs (snap_data : Main.SnapDataForRouting) (Lf Lt : Q)
  : list Main.candidate :=
  let d_from := Main.from_segment_distance_along_segment_metres snap_data in
  let d_to := Main.to_segment_distance_along_segment_metres snap_data in
  [ (Main.from_segment_start_node snap_data, Main.to_segment_start_node snap_data,
     leave_at_start d_from, enter_at_start d_to);
    (Main.from_segment_start_node snap_data, Main.to_segment_end_node snap_data,
     leave_at_start d_from, enter_at_end d_to Lt);
    (Main.from_segment_end_node snap_data, Main.to_segment_start_node snap_data,
     leave_at_end d_from Lf, enter_at_start d_to);
    (Main.from_segment_end_node snap_data, Main.to_segment_end_node snap_data,
     leave_at_end d_from Lf, enter_at_end d_to Lt) ].

(** The duration text has the form [HH:MM:SS.F]. *)
Definition duration_form (text : string) : Prop :=
  ∃ h1 h2 m1 m2 s1 s2 f,
    Forall is_digit [h1; h2; m1; m2; s1; s2] ∧ Forall is_digit f ∧ f ≠ []
    ∧ text = duration_text [h1; h2] [m1; m2] [s1; s2] f.

(** A date text in the format [YYYY-MM-DD] that [models.date_validation]
    describes.  The [date] column keeps such a text as text, and SQLite
    compares texts bytewise. *)
Definition is_digit_char (c : ascii) : bool :=
  match Backend.digit_value c with
  | Some _ => true
  | None => false
  end.

Definition iso_date (s : string) : bool :=
  match String.list_ascii_of_string s with
  | [y1; y2; y3; y4; a; m1; m2; b; d1; d2] =>
      forallb is_digit_char [y1; y2; y3; y4; m1; m2; d1; d2]
      && bool_decide (a = "-"%char) && bool_decide (b = "-"%char)
  | _ => false
  end.

(** Every stored run has such a date. *)
Definition iso_dates (db : Backend.database) : Prop :=
  ∀ r, r ∈ Backend.logged_runs db → iso_date (Backend.lr_date r) = true.

(** A bound of a date range, when given, is such a date. *)
Definition iso_bound (bound : option string) : Prop :=
  match bound with
  | Some d => iso_date d = true
  | None => True
  end.

(** * Part III: verified properties *)

Lemma has_char_app c s t :
  has_char c (s +:+ t) = has_char c s || has_char c t.
Proof.
  induction s as [|c' s IH]; simpl; [done|].
  case_decide; [done|]. apply IH.
Qed.

(** Two strings that end in an underscore followed by an underscore-free
    suffix are equal only if both parts are. *)
Lemma app_underscore_inj s1 s2 d1 d2 :
  has_char "_" d1 = false → has_char "_" d2 = false →
  s1 +:+ String "_" d1 = s2 +:+ String "_" d2 → s1 = s2 ∧ d1 = d2.
Proof.
  intros Hd1 Hd2. revert s2.
  induction s1 as [|c s1 IH]; intros [|c' s2] Heq; simpl in Heq.
  - by simplify_eq.
  - simplify_eq. rewrite has_char_app in Hd1. simpl in Hd1.
    by rewrite orb_true_r in Hd1.
  - simplify_eq. rewrite has_char_app in Hd2. simpl in Hd2.
    by rewrite orb_true_r in Hd2.
  - simplify_eq. destruct (IH s2) as [-> ->]; done.
Qed.

Lemma pretty_N_char_not_underscore x : pretty_N_char x ≠ "_"%char.
Proof. unfold pretty_N_char. by repeat case_match. Qed.

Lemma pretty_N_go_no_underscore x s :
  has_char "_" s = false → has_char "_" (pretty_N_go x s) = false.
Proof.
  revert s. induction (N.lt_wf_0 x) as [x _ IH]; intros s Hs.
  assert (x = 0 ∨ 0 < x)%N as [->|?] by lia.
  - by rewrite pretty_N_go_0.
  - rewrite pretty_N_go_step by done. apply IH.
    { by apply N.div_lt. }
    simpl. case_decide as Hc; [|done].
    by apply pretty_N_char_not_underscore in Hc.
Qed.

Lemma pretty_nat_no_underscore (n : nat) : has_char "_" (pretty n) = false.
Proof.
  unfold pretty, pretty_nat, pretty, pretty_N.
  case_decide; [done|]. by apply pretty_N_go_no_underscore.
Qed.

(** ** Segment identities *)

Section SegmentIds.
Import Osm.

Lemma suffixed_inj k1 k2 c1 c2 :
  suffixed k1 c1 = suffixed k2 c2 → k1 = k2 ∧ c1 = c2.
Proof.
  intros Heq.
  destruct (app_underscore_inj k1 k2 (pretty c1) (pretty c2)) as [-> Hc];
    auto using pretty_nat_no_underscore.
  split; [done|]. by apply (inj pretty).
Qed.

Lemma cumcount_from_length seen keys :
  length (cumcount_from seen keys) = length keys.
Proof. revert seen. induction keys; intros; simpl; auto. Qed.

Lemma cumcount_from_lookup seen keys i k :
  keys !! i = Some k →
  cumcount_from seen keys !! i
  = Some (length (filter (λ k', k' = k) seen)
          + length (filter (λ k', k' = k) (take i keys)))%nat.
Proof.
  revert seen i. induction keys as [|k0 keys IH]; intros seen i Hi; [done|].
  destruct i as [|i]; simpl in *.
  - simplify_eq. f_equal. lia.
  - rewrite (IH _ _ Hi). f_equal.
    rewrite !filter_cons. case_decide; simpl; lia.
Qed.

Lemma cumcount_from_ge seen keys i k c :
  keys !! i = Some k → cumcount_from seen keys !! i = Some c →
  (length (filter (λ k', k' = k) seen) ≤ c)%nat.
Proof.
  intros Hk Hc. rewrite (cumcount_from_lookup _ _ _ _ Hk) in Hc.
  simplify_eq. lia.
Qed.

(** Within one pass no (key, count) pair is produced twice. *)
Lemma suffixed_cumcount_NoDup seen keys :
  NoDup (zip_with suffixed keys (cumcount_from seen keys)).
Proof.
  revert seen. induction keys as [|k keys IH]; intros seen; simpl.
  { constructor. }
  constructor; [|apply IH].
  intros Hin. apply list_elem_of_lookup in Hin as [i Hi].
  apply lookup_zip_with_Some in Hi as (k' & c' & Heq & Hk' & Hc').
  apply suffixed_inj in Heq as [<- <-].
  pose proof (cumcount_from_ge _ _ _ _ _ Hk' Hc') as Hge.
  rewrite filter_cons in Hge. case_decide; [simpl in Hge; lia | done].
Qed.

Lemma assign_segment_ids_column df :
  segment_id <$> assign_segment_ids df
  = zip_with suffixed (clean_osm_ids ∘ segment_id <$> df)
             (cumcount (clean_osm_ids ∘ segment_id <$> df)).
Proof.
  unfold assign_segment_ids, cumcount.
  rewrite <- list_fmap_compose.
  change (segment_id ∘ _) with (clean_osm_ids ∘ segment_id (I:=osm_id)).
  generalize (cumcount_from [] (clean_osm_ids ∘ segment_id <$> df)).
  induction df as [|r df IH]; intros [|c cs]; simpl; try done.
  f_equal. apply IH.
Qed.

Lemma assign_segment_ids_lookup df i r :
  df !! i = Some r →
  assign_segment_ids df !! i
  = Some (set_segment_id r
            (suffixed (clean_osm_ids (segment_id r))
                      (occurrences_before df i (clean_osm_ids (segment_id r))))).
Proof.
  intros Hi. unfold assign_segment_ids, cumcount.
  rewrite <- list_fmap_compose.
  change (segment_id ∘ _) with (clean_osm_ids ∘ segment_id (I:=osm_id)).
  apply lookup_zip_with_Some.
  eexists (set_segment_id r (clean_osm_ids (segment_id r))), _.
  split_and!; [done | by rewrite list_lookup_fmap, Hi |].
  erewrite cumcount_from_lookup; [|by rewrite list_lookup_fmap, Hi].
  simpl. f_equal. unfold occurrences_before.
  rewrite <- fmap_take. generalize (take i df). intros l.
  induction l as [|x l IH]; [done|].
  rewrite fmap_cons, !filter_cons. simpl.
  repeat case_decide; simpl; congruence.
Qed.

End SegmentIds.


(** ** Geometry orientation *)

Lemma stamp_segment_id_nodes g f : g_nodes (Osm.stamp_segment_id g f) = g_nodes g.
Proof.
  unfold Osm.stamp_segment_id.
  destruct (Osm.f_segment_id f); [|done].
  by destruct (get_edge g _ _ 0).
Qed.

Lemma node_lng_lat_ext g g' n :
  g_nodes g' = g_nodes g → node_lng_lat g' n = node_lng_lat g n.
Proof. unfold node_lng_lat. by intros ->. Qed.

Lemma oriented_ext g g' f : g_nodes g' = g_nodes g → oriented g' f = oriented g f.
Proof. intros H. unfold oriented. by rewrite (node_lng_lat_ext _ _ _ H). Qed.

Lemma omap_oriented_ext g g' (l : list Osm.feature) :
  g_nodes g' = g_nodes g → omap (oriented g') l = omap (oriented g) l.
Proof.
  intros H. induction l as [|f l IH]; [done|].
  simpl. rewrite (oriented_ext _ _ _ H).
  destruct (oriented g f); [f_equal|]; exact IH.
Qed.

Lemma feature_ok_ext g g' f : g_nodes g' = g_nodes g → feature_ok g f → feature_ok g' f.
Proof. intros H [[pos Hp] Hc]. split; [|done]. exists pos. by rewrite (node_lng_lat_ext _ _ _ H). Qed.

Lemma last_coordinate_rev cs : Osm.last_coordinate cs = Osm.first_coordinate (List.rev cs).
Proof. done. Qed.

Lemma orient_feature_oriented g f :
  feature_ok g f → Osm.orient_feature g f = Ok (oriented g f).
Proof.
  intros [[pos Hp] Hc]. unfold Osm.orient_feature, oriented. rewrite Hp. simpl.
  destruct (Osm.f_coordinates f) as [|c0 cs] eqn:Hcs; [done|]. simpl.
  assert (∃ cn, Osm.last_coordinate (c0 :: cs) = Ok cn) as [cn Hn].
  { unfold Osm.last_coordinate. destruct (List.rev (c0 :: cs)) eqn:Hr; [|eauto].
    apply (f_equal (@length _)) in Hr. rewrite length_rev in Hr. done. }
  rewrite Hn. simpl.
  destruct (floats_eqb cn pos), (floats_eqb c0 pos); simpl; by rewrite ?Hcs.
Qed.

Lemma agree_loop_oriented todo : ∀ g acc,
  Forall (feature_ok g) todo →
  ∃ g', Osm.agree_loop g todo acc = Ok (g', acc ++ omap (oriented g) todo)
        ∧ g_nodes g' = g_nodes g.
Proof.
  induction todo as [|f todo IH]; intros g acc Hok; simpl.
  { exists g. by rewrite app_nil_r. }
  apply Forall_cons in Hok as [Hf Hok].
  pose proof (stamp_segment_id_nodes g f) as Hn.
  rewrite orient_feature_oriented by by eapply feature_ok_ext.
  simpl. rewrite (oriented_ext _ _ _ Hn).
  assert (Forall (feature_ok (Osm.stamp_segment_id g f)) todo) as Hok'.
  { eapply Forall_impl; [done|]. intros f'. by apply feature_ok_ext. }
  destruct (oriented g f) as [f'|].
  - destruct (IH _ (acc ++ [f']) Hok') as (g' & -> & Hg'). exists g'.
    split; [|congruence].
    by rewrite <- app_assoc, (omap_oriented_ext _ _ _ Hn).
  - destruct (IH _ acc Hok') as (g' & -> & Hg'). exists g'.
    split; [|congruence]. by rewrite (omap_oriented_ext _ _ _ Hn).
Qed.

Lemma oriented_starts_at_start_node g f f' :
  oriented g f = Some f' →
  Osm.f_start_node f' = Osm.f_start_node f
  ∧ ∃ c pos, Osm.first_coordinate (Osm.f_coordinates f') = Ok c
             ∧ node_lng_lat g (Osm.f_start_node f') = Ok pos
             ∧ floats_eqb c pos = true.
Proof.
  unfold oriented. intros H.
  destruct (node_lng_lat g _) as [pos|] eqn:Hp; [|done].
  destruct (Osm.first_coordinate _) as [c0|] eqn:H0; [|done].
  destruct (Osm.last_coordinate _) as [cn|] eqn:Hn; [|done].
  destruct (floats_eqb cn pos) eqn:En.
  - simplify_eq. split; [done|]. exists cn, pos. simpl.
    by rewrite <- last_coordinate_rev.
  - destruct (floats_eqb c0 pos) eqn:E0; simplify_eq.
    split; [done|]. by exists c0, pos.
Qed.

(** C3 (as the code has it). When every feature's start node is in the
    graph and no geometry is empty, the normalizer returns; a feature
    whose last coordinate equals its start node's position is kept with
    its coordinates reversed, otherwise one whose first coordinate equals
    that position is kept as it is, and one with neither end there is
    dropped (the end node's position is never consulted); the order of the
    kept features is that of the input, and every feature in the output
    has its first coordinate equal to its start node's position. *)
Theorem orientation_normalizer_output (g : graph) (geometry : list Osm.feature) :
  Forall (feature_ok g) geometry →
  ∃ g', Osm.make_sure_geometries_agree_with_start_end_nodes g geometry
        = Ok (g', omap (oriented g) geometry)
    ∧ g_nodes g' = g_nodes g
    ∧ Forall (λ f', ∃ c pos,
                Osm.first_coordinate (Osm.f_coordinates f') = Ok c
                ∧ node_lng_lat g' (Osm.f_start_node f') = Ok pos
                ∧ floats_eqb c pos = true)
             (omap (oriented g) geometry).
Proof.
  intros Hok. unfold Osm.make_sure_geometries_agree_with_start_end_nodes.
  destruct (agree_loop_oriented geometry g [] Hok) as (g' & Hrun & Hn).
  exists g'. split_and!; [done..|].
  apply Forall_forall. intros f' Hin.
  apply list_elem_of_omap in Hin as (f & _ & Hf).
  apply oriented_starts_at_start_node in Hf as (_ & c & pos & ? & ? & ?).
  exists c, pos. by rewrite (node_lng_lat_ext _ _ _ Hn).
Qed.

Lemma orientation_normalizer_output_witness :
  ∃ g', Osm.make_sure_geometries_agree_with_start_end_nodes two_node_graph
          [feature_from_end; feature_to_start]
        = Ok (g', [Osm.with_coordinates feature_to_start [[0; 0]; [5; 5]]%Q])
    ∧ g_nodes g' = g_nodes two_node_graph.
Proof.
  destruct (orientation_normalizer_output two_node_graph
              [feature_from_end; feature_to_start]) as (g' & H1 & H2 & _).
  - repeat constructor; try (by eexists); done.
  - exists g'. split; [exact H1 | exact H2].
Defined.

(** C3 (as stated) fails: [feature_from_end] has its first coordinate at
    the end node's position and is dropped, not reversed;
    [feature_to_start] has its first coordinate at neither node's position
    and is kept (reversed), not dropped. *)
Lemma orientation_by_first_coordinate_fails :
  first_coordinate_at two_node_graph feature_from_end 1 = false
  ∧ first_coordinate_at two_node_graph feature_from_end 2 = true
  ∧ first_coordinate_at two_node_graph feature_to_start 1 = false
  ∧ first_coordinate_at two_node_graph feature_to_start 2 = false
  ∧ omap (oriented_by_first_coordinate two_node_graph)
         [feature_from_end; feature_to_start]
    = [Osm.with_coordinates feature_from_end [[2; 2]; [1; 1]]%Q]
  ∧ Osm.make_sure_geometries_agree_with_start_end_nodes two_node_graph
      [feature_from_end; feature_to_start]
    = Ok (two_node_graph, [Osm.with_coordinates feature_to_start [[0; 0]; [5; 5]]%Q])
  ∧ Osm.make_sure_geometries_agree_with_start_end_nodes two_node_graph
      [feature_from_end; feature_to_start]
    ≠ Ok (two_node_graph,
          omap (oriented_by_first_coordinate two_node_graph)
               [feature_from_end; feature_to_start]).
Proof. vm_compute. split_and!; done. Qed.

(** ** Toggling ignored segments *)

Section IgnoredSegments.
Import Backend.

Lemma filter_id {A} (P : A → Prop) `{∀ x, Decision (P x)} (l : list A) :
  Forall P l → filter P l = l.
Proof.
  induction 1 as [|x l Hx _ IH]; [done|].
  by rewrite filter_cons_True, IH.
Qed.

Lemma add_to_ignored_segments_rows db sc :
  ignored_segments (add_to_ignored_segments db sc)
  = ignored_segments db ++
    ((λ s, {| is_username := sc_username sc; is_area_name := sc_area_name sc;
              is_segment_id := s |}) <$> segment_ids sc).
Proof.
  unfold add_to_ignored_segments.
  destruct (segment_ids sc); simpl; [by rewrite app_nil_r | done].
Qed.

Lemma remove_from_ignored_segments_rows db sc :
  ignored_segments (remove_from_ignored_segments db sc)
  = filter (λ r, ¬ (in_area (sc_username sc) (sc_area_name sc) r = true
                    ∧ is_segment_id r ∈ segment_ids sc))
           (ignored_segments db).
Proof.
  unfold remove_from_ignored_segments.
  destruct (segment_ids sc) eqn:E; simpl; [|done].
  symmetry. apply filter_id, Forall_forall.
  intros r _ [_ Hin]. by apply elem_of_nil in Hin.
Qed.

Lemma elem_of_ignored_segment_ids db run_area s :
  s ∈ ignored_segment_ids db run_area
  ↔ ∃ r, r ∈ ignored_segments db
         ∧ in_area (username run_area) (area_name run_area) r = true
         ∧ is_segment_id r = s.
Proof.
  unfold ignored_segment_ids. rewrite list_elem_of_fmap.
  split.
  - intros (r & -> & Hr). apply list_elem_of_filter in Hr as [? ?]. eauto.
  - intros (r & ? & ? & <-). exists r. split; [done|].
    by apply list_elem_of_filter.
Qed.

Lemma in_area_iff u a r :
  in_area u a r = true ↔ is_username r = u ∧ is_area_name r = a.
Proof.
  unfold in_area. rewrite andb_true_iff, !bool_decide_eq_true. done.
Qed.

(** After the update an id is ignored exactly when it was ignored or is
    in the target list, but not both. *)
Lemma elem_of_update_ignored_segments db sc s :
  s ∈ ignored_segment_ids (update_ignored_segments db sc) (area_of sc)
  ↔ (s ∈ ignored_segment_ids db (area_of sc) ∧ s ∉ segment_ids sc)
    ∨ (s ∈ segment_ids sc ∧ s ∉ ignored_segment_ids db (area_of sc)).
Proof.
  unfold update_ignored_segments. fold (area_of sc).
  set (cur := ignored_segment_ids db (area_of sc)).
  rewrite elem_of_ignored_segment_ids, remove_from_ignored_segments_rows.
  simpl.
  setoid_rewrite list_elem_of_filter.
  rewrite add_to_ignored_segments_rows. simpl.
  setoid_rewrite elem_of_app. setoid_rewrite list_elem_of_fmap.
  setoid_rewrite list_elem_of_filter.
  split.
  - intros (r & [Hkeep [Hold | (s' & -> & Hnew & Hin)]] & Harea & <-).
    + left. assert (is_segment_id r ∈ cur) as Hcur.
      { apply elem_of_ignored_segment_ids. eauto. }
      split; [done|]. intros Hin. apply Hkeep. by split.
    + right. simpl in *. by split.
  - intros [[Hcur Hnin] | [Hin Hncur]].
    + apply elem_of_ignored_segment_ids in Hcur as (r & Hr & Harea & <-).
      exists r. split_and!; [|by left|done..].
      intros [_ [_ Hin]]. done.
    + eexists {| is_username := sc_username sc; is_area_name := sc_area_name sc;
                 is_segment_id := s |}.
      split_and!; [| right; eauto | by apply in_area_iff | done].
      simpl. intros [_ [Hcur _]]. done.
Qed.

Lemma filter_none {A} (P : A → Prop) `{∀ x, Decision (P x)} (l : list A) :
  Forall (λ x, ¬ P x) l → filter P l = [].
Proof.
  induction 1 as [|x l Hx _ IH]; [done|].
  by rewrite filter_cons_False.
Qed.

(** Rows of other areas are not touched. *)
Lemma update_ignored_segments_other_area db sc run_area :
  run_area ≠ area_of sc →
  ignored_segment_ids (update_ignored_segments db sc) run_area
  = ignored_segment_ids db run_area.
Proof.
  intros Hne. unfold update_ignored_segments, ignored_segment_ids at 1.
  rewrite remove_from_ignored_segments_rows, add_to_ignored_segments_rows.
  simpl.
  assert (∀ r, in_area (username run_area) (area_name run_area) r = true →
               ¬ in_area (sc_username sc) (sc_area_name sc) r = true) as Hdisj.
  { intros r [? ?]%in_area_iff [? ?]%in_area_iff. apply Hne.
    destruct run_area; unfold area_of; simpl in *; congruence. }
  rewrite list_filter_filter_l by (intros r Hr [? _]; by eapply Hdisj).
  rewrite filter_app, fmap_app.
  rewrite (filter_none _ (_ <$> _)); [by rewrite app_nil_r|].
  apply Forall_fmap, Forall_forall. intros s _ Hs. simpl in Hs.
  eapply Hdisj; [exact Hs|]. by apply in_area_iff.
Qed.

End IgnoredSegments.

(** C9. [update_ignored_segments] replaces the ignored set of the
    collection's area by its symmetric difference with the target ids
    (whether or not the target list repeats an id), leaves every other
    area's ignored ids as they were, and applied twice with the same
    target restores the ignored set. *)
Theorem update_ignored_segments_toggles
    (db : Backend.database) (sc : Backend.SegmentCollection) :
  let cur := ignored_set db (area_of sc) in
  let target : gset string := list_to_set (Backend.segment_ids sc) in
  ignored_set (Backend.update_ignored_segments db sc) (area_of sc)
  = (cur ∖ target) ∪ (target ∖ cur)
  ∧ ignored_set (Backend.update_ignored_segments
                   (Backend.update_ignored_segments db sc) sc) (area_of sc)
    = cur
  ∧ ∀ run_area, run_area ≠ area_of sc →
      Backend.ignored_segment_ids (Backend.update_ignored_segments db sc) run_area
      = Backend.ignored_segment_ids db run_area.
Proof.
  intros cur target.
  assert (∀ db', ignored_set (Backend.update_ignored_segments db' sc) (area_of sc)
                 = (ignored_set db' (area_of sc) ∖ target)
                   ∪ (target ∖ ignored_set db' (area_of sc))) as Hstep.
  { intros db'. apply set_eq. intros s. unfold ignored_set, target.
    rewrite elem_of_list_to_set, elem_of_update_ignored_segments.
    rewrite elem_of_union, !elem_of_difference, !elem_of_list_to_set. done. }
  split_and!.
  - apply Hstep.
  - rewrite Hstep, Hstep. fold cur. apply set_eq. intros s.
    rewrite elem_of_union, !elem_of_difference, elem_of_union, !elem_of_difference.
    destruct (decide (s ∈ target)), (decide (s ∈ cur)); tauto.
  - intros run_area. apply update_ignored_segments_other_area.
Qed.

(** ** Storing runs *)

Section StoreRun.
Import Backend.

Lemma digit_cases d : is_digit d →
  d = 0 ∨ d = 1 ∨ d = 2 ∨ d = 3 ∨ d = 4 ∨ d = 5 ∨ d = 6 ∨ d = 7 ∨ d = 8 ∨ d = 9.
Proof. unfold is_digit. lia. Qed.

Lemma digit_char_facts d : is_digit d →
  digit_value (digit_char d) = Some d
  ∧ is_space (digit_char d) = false
  ∧ digit_char d ≠ "-"%char ∧ digit_char d ≠ "+"%char.
Proof.
  intros Hd. apply digit_cases in Hd.
  destruct Hd as [->|[->|[->|[->|[->|[->|[->|[->|[->| ->]]]]]]]]]; by vm_compute.
Qed.

Lemma parse_digits_digits ds : ∀ acc b,
  Forall is_digit ds → ds ≠ [] ∨ b = true →
  parse_digits (digit_char <$> ds) acc b
  = Some (fold_left (λ acc d, 10 * acc + d) ds acc).
Proof.
  induction ds as [|d ds IH]; intros acc b Hds Hne.
  - destruct Hne as [?| ->]; done.
  - apply Forall_cons in Hds as [Hd Hds].
    rewrite fmap_cons. cbn [parse_digits fold_left].
    destruct (digit_char_facts d Hd) as (-> & _). apply IH; auto.
Qed.

Lemma lstrip_digits cs c :
  is_space c = false → lstrip (c :: cs) = c :: cs.
Proof. simpl. by intros ->. Qed.

Lemma py_int_digits ds :
  Forall is_digit ds → ds ≠ [] → py_int (digits_string ds) = Ok (digits_value ds).
Proof.
  intros Hds Hne. unfold py_int, digits_string.
  rewrite String.list_ascii_of_string_of_list_ascii.
  destruct ds as [|d ds]; [done|]. clear Hne.
  pose proof Hds as Hall.
  apply Forall_cons in Hds as [Hd _].
  destruct (digit_char_facts d Hd) as (_ & Hsp & Hm & Hp).
  rewrite fmap_cons, lstrip_digits by done.
  destruct (List.rev (digit_char d :: (digit_char <$> ds))) as [|c cs] eqn:Hrev.
  { apply (f_equal (@length _)) in Hrev. by rewrite length_rev in Hrev. }
  assert (is_space c = false) as Hc.
  { assert (c ∈ digit_char <$> (d :: ds)) as Hin.
    { rewrite fmap_cons. apply list_elem_of_In, in_rev. rewrite Hrev. by left. }
    apply list_elem_of_fmap in Hin as (d' & -> & Hin).
    rewrite Forall_forall in Hall. by apply digit_char_facts, Hall. }
  rewrite lstrip_digits, <- Hrev, rev_involutive by done.
  rewrite !decide_False by done.
  rewrite <- fmap_cons, parse_digits_digits by auto.
  done.
Qed.

Lemma get_duration_minutes_text h1 h2 m1 m2 s1 s2 f :
  Forall is_digit [h1; h2; m1; m2; s1; s2] → Forall is_digit f → f ≠ [] →
  get_duration_minutes (Some (duration_text [h1; h2] [m1; m2] [s1; s2] f))
  = Ok (inject_Z (digits_value [h1; h2] * 60 + digits_value [m1; m2])
        + inject_Z (digits_value [s1; s2]) / 60
        + inject_Z (digits_value f) / 6000)%Q.
Proof.
  intros Hd Hf Hne. unfold get_duration_minutes.
  change (slice 0 2 (duration_text [h1; h2] [m1; m2] [s1; s2] f))
    with (digits_string [h1; h2]).
  change (slice 3 5 (duration_text [h1; h2] [m1; m2] [s1; s2] f))
    with (digits_string [m1; m2]).
  change (slice 6 8 (duration_text [h1; h2] [m1; m2] [s1; s2] f))
    with (digits_string [s1; s2]).
  change (slice_from 9 (duration_text [h1; h2] [m1; m2] [s1; s2] f))
    with (digits_string f).
  rewrite !Forall_cons in Hd. destruct Hd as (?&?&?&?&?&?&_).
  rewrite !py_int_digits
    by (first [done | repeat first [assumption | apply List.Forall_cons | apply List.Forall_nil]]).
  done.
Qed.

Lemma store_run_accepted db run_id run_area run :
  accepted db run_area run →
  store_run db run_id run_area run
  = match get_duration_minutes (duration run) with
    | Ok m => Ok (Outcome 200 None, stored_db db run_id run_area run (Some m))
    | Raise TypeError => Ok (Outcome 200 None, stored_db db run_id run_area run None)
    | Raise e => Raise e
    end.
Proof.
  intros Hacc. unfold store_run.
  assert (negb (allow_multiple run) && exists_run_on_date db run_area (date run)
          = false) as ->.
  { destruct Hacc as [-> | ->]; [done | by rewrite andb_false_r]. }
  destruct (get_duration_minutes (duration run)) as [m|e]; [done|].
  by destruct e.
Qed.

(** The duplicate check passes a run through unless a traversal row is
    joined to a run of that date. *)
Lemma store_run_conflict db run_id run_area run :
  allow_multiple run = false →
  exists_run_on_date db run_area (date run) = true →
  ∃ text, store_run db run_id run_area run = Ok (Outcome 400 (Some text), db).
Proof. intros Ha He. unfold store_run. rewrite Ha, He. simpl. eauto. Qed.

End StoreRun.

Lemma py_int_Raise s e : Backend.py_int s = Raise e → e = ValueError.
Proof.
  unfold Backend.py_int.
  destruct (List.rev _) as [|c cs]; [congruence|].
  repeat case_decide; repeat case_match; congruence.
Qed.

Lemma str_drop_short n s : (String.length s ≤ n)%nat → Backend.str_drop n s = "".
Proof.
  revert s. induction n as [|n IH]; intros [|c s] Hlen; simpl in *;
    try done; try lia. apply IH. lia.
Qed.

Lemma get_duration_minutes_short s :
  (String.length s ≤ 9)%nat → Backend.get_duration_minutes (Some s) = Raise ValueError.
Proof.
  intros Hlen. unfold Backend.get_duration_minutes, Backend.slice_from.
  rewrite (str_drop_short 9 s Hlen).
  destruct (Backend.py_int (Backend.slice 0 2 s)) as [h|e] eqn:E1;
    [|by rewrite (py_int_Raise _ _ E1)].
  destruct (Backend.py_int (Backend.slice 3 5 s)) as [m|e] eqn:E2;
    [|by rewrite (py_int_Raise _ _ E2)].
  destruct (Backend.py_int (Backend.slice 6 8 s)) as [sec|e] eqn:E3;
    [|by rewrite (py_int_Raise _ _ E3)].
  done.
Qed.

(** Slicing a text never raises; what can fail is [int], with
    [ValueError]. *)
Lemma get_duration_minutes_text_Raise s e :
  Backend.get_duration_minutes (Some s) = Raise e → e = ValueError.
Proof.
  unfold Backend.get_duration_minutes.
  destruct (Backend.py_int (Backend.slice 0 2 s)) as [h|e1] eqn:E1; cbn [rbind];
    [|intros; simplify_eq; by eapply py_int_Raise].
  destruct (Backend.py_int (Backend.slice 3 5 s)) as [m|e2] eqn:E2; cbn [rbind];
    [|intros; simplify_eq; by eapply py_int_Raise].
  destruct (Backend.py_int (Backend.slice 6 8 s)) as [sec|e3] eqn:E3; cbn [rbind];
    [|intros; simplify_eq; by eapply py_int_Raise].
  destruct (Backend.py_int (Backend.slice_from 9 s)) as [ms|e4] eqn:E4; cbn [rbind];
    [intros H; discriminate H|intros; simplify_eq; by eapply py_int_Raise].
Qed.




(** Only [TypeError] is caught around [get_duration_minutes]: a string
    that slices into something [int] rejects ends [store_run] with
    [ValueError], and nothing is stored. *)
Example store_run_rejects_other_text :
  Backend.store_run empty_db "r1" some_area short_duration_run = Raise ValueError.
Proof. vm_compute. done. Qed.

(** C8 (failing input). A run stored with no segment traversals is not
    seen by [exists_run_on_date]: a second run for the same date with
    [allow_multiple] false is accepted with status 200, and two runs are
    then stored for that date. *)
Theorem store_run_accepts_second_run_on_date :
  let db1 := stored_db empty_db "r1" some_area run_without_segments None in
  let db2 := stored_db db1 "r2" some_area second_run None in
  Backend.store_run empty_db "r1" some_area run_without_segments
  = Ok (Backend.Outcome 200 None, db1)
  ∧ length (runs_on db1 some_area "2021-06-01") = 1%nat
  ∧ Backend.exists_run_on_date db1 some_area "2021-06-01" = false
  ∧ Backend.store_run db1 "r2" some_area second_run
    = Ok (Backend.Outcome 200 None, db2)
  ∧ length (runs_on db2 some_area "2021-06-01") = 2%nat.
Proof. vm_compute. done. Qed.

(** ** Loading the routing graph *)

Section RoutingGraph.
Import Backend Main.

(** After [get_run_area_graph] the cache slot holds the call just made. *)
Lemma get_run_area_graph_cached p u a value p' :
  get_run_area_graph p u a = (value, p') → graph_cache p' = Some (u, a, value).
Proof.
  unfold get_run_area_graph, load_run_area_graph. intros H.
  destruct (graph_cache p) as [[[u' a'] v']|] eqn:Hc.
  - destruct (bool_decide (u' = u)) eqn:Hu, (bool_decide (a' = a)) eqn:Ha;
      simpl in H;
      try (apply bool_decide_eq_true in Hu as ->);
      try (apply bool_decide_eq_true in Ha as ->);
      first [ by simplify_eq | destruct (_ ≫= ra_graph); by simplify_eq ].
  - destruct (_ ≫= ra_graph); by simplify_eq.
Qed.

Lemma get_run_area_graph_hit p u a value :
  graph_cache p = Some (u, a, value) → get_run_area_graph p u a = (value, p).
Proof.
  intros H. unfold get_run_area_graph. rewrite H.
  by rewrite !bool_decide_eq_true_2.
Qed.

(** Loading never writes to the tables. *)
Lemma get_routing_graph_tables p current_user respect_ignored ref p' :
  get_routing_graph p current_user respect_ignored = Ok (ref, p') →
  tables p' = tables p.
Proof.
  unfold get_routing_graph. destruct (make_run_area current_user) as [ra|]; [|done].
  simpl. destruct (get_run_area_graph p _ _) as [graph p1] eqn:Hg.
  assert (tables p1 = tables p) as Ht.
  { unfold get_run_area_graph, load_run_area_graph in Hg.
    destruct (graph_cache p) as [[[u' a'] v']|];
      repeat (first [case_match | simplify_eq]); done. }
  destruct respect_ignored; [|intros; by simplify_eq].
  destruct graph as [addr|]; [|done].
  destruct (objects p1 !! addr); [|done]. intros; by simplify_eq.
Qed.

(** A load that follows a filtering load for the same user is served
    from the cache: the same object, edited as the filter left it. *)
Lemma get_routing_graph_reload p current_user ref p1 :
  get_routing_graph p current_user true = Ok (ref, p1) →
  get_routing_graph p1 current_user false = Ok (ref, p1).
Proof.
  unfold get_routing_graph. destruct (make_run_area current_user) as [ra|]; [|done].
  simpl. destruct (get_run_area_graph p _ _) as [graph p0] eqn:Hg.
  apply get_run_area_graph_cached in Hg.
  destruct graph as [addr|]; [|done].
  destruct (objects p0 !! addr); [|done].
  intros H. simplify_eq.
  erewrite get_run_area_graph_hit; [done | exact Hg].
Qed.

End RoutingGraph.

(** C4 (failing input). A load with [respect_ignored] edits the graph
    object held by the cache of [get_run_area_graph]; the next load of the
    same area, without filtering, returns that object, from which the
    ignored edge is missing, although the stored row still has it. *)
Theorem filtered_load_leaks_into_next_load :
  ∃ p1 p2,
    Main.get_routing_graph server_with_ignored_segment ann true = Ok (Some 0%nat, p1)
    ∧ Main.get_routing_graph p1 ann false = Ok (Some 0%nat, p2)
    ∧ Main.deref p2 (Some 0%nat)
      = Some (Graph (g_nodes line_graph) [Edge 2 3 0 10 (Some "8_0")])
    ∧ Backend.ra_graph <$> Backend.run_areas (Backend.tables p2) = [Some line_graph].
Proof. do 2 eexists. vm_compute. done. Qed.

(** ** Routing *)

Lemma Qgtb_lt x y : Main.Qgtb x y = true ↔ (y < x)%Q.
Proof.
  unfold Main.Qgtb. rewrite negb_true_iff, <- not_true_iff_false, Qle_bool_iff.
  split; [apply Qnot_le_lt | apply Qlt_not_le].
Qed.

Lemma Qltb_lt x y : Main.Qltb x y = true ↔ (x < y)%Q.
Proof. apply Qgtb_lt. Qed.

Lemma Qltb_ge x y : Main.Qltb x y = false ↔ (y <= x)%Q.
Proof.
  unfold Main.Qltb. rewrite negb_false_iff, Qle_bool_iff. done.
Qed.

Lemma elem_of_common_nodes snap_data n :
  n ∈ Main.common_nodes snap_data ↔ shared_node snap_data n.
Proof.
  unfold Main.common_nodes, shared_node.
  rewrite list_elem_of_filter.
  destruct (Z.eqb_spec (Main.from_segment_start_node snap_data)
                       (Main.from_segment_end_node snap_data)) as [<-|Hne].
  - rewrite list_elem_of_singleton. tauto.
  - rewrite elem_of_cons, list_elem_of_singleton. tauto.
Qed.

Lemma common_nodes_nil snap_data :
  no_shared_node snap_data → Main.common_nodes snap_data = [].
Proof.
  intros (H1 & H2 & H3 & H4).
  destruct (Main.common_nodes snap_data) as [|n l] eqn:E; [done|].
  assert (n ∈ Main.common_nodes snap_data) as Hin by (rewrite E; left).
  apply elem_of_common_nodes in Hin as [[-> | ->] [? | ?]]; done.
Qed.

Lemma set_pop_elem_of (pop_first : Z → Z → bool) s :
  s ≠ [] → ∃ n, Main.set_pop pop_first s = Some n ∧ n ∈ s.
Proof.
  destruct s as [|a [|b s]]; [done| |]; intros _; simpl.
  - exists a. split; [done | left].
  - destruct (pop_first a b); eexists; (split; [done|]).
    + left.
    + right. left.
Qed.



Lemma same_edges_as_parallel_graph g :
  edge_shape <$> g_edges g = edge_shape <$> g_edges parallel_graph →
  ∃ nodes s1 s2 s3,
    g = Graph nodes [Edge 1 2 0 30 s1; Edge 1 2 1 40 s2; Edge 2 3 0 20 s3].
Proof.
  destruct g as [nodes es]. simpl. intros H.
  destruct es as [|[u1 v1 k1 l1 s1] [|[u2 v2 k2 l2 s2] [|[u3 v3 k3 l3 s3] [|e4 es]]]];
    try discriminate H.
  unfold edge_shape in H. simpl in H. simplify_eq. by exists nodes, s1, s2, s3.
Qed.

(** C5 (failing input). Both points are on segment Q (40 m), which runs
    beside segment P (30 m, key 0) between the same two nodes, at 29 m
    and 37 m: neither is beyond 95% of Q's length (38 m), yet the route
    carries both flags, because the length read is that of edge
    (1, 2, 0), which is P.  The segment ids on the edges of the graph
    play no part. *)
Theorem route_same_segment_reads_parallel_edge
    (shortest_path : graph → Z → Z → result (list Z)) (pop_first : Z → Z → bool)
    (g : graph) :
  edge_shape <$> g_edges g = edge_shape <$> g_edges parallel_graph →
  segment_length parallel_graph "Q" = Some 40%Q
  ∧ Main.distance_at_end_of_segment 40 29 = false
  ∧ Main.distance_at_end_of_segment 40 37 = false
  ∧ Main.route shortest_path pop_first g snap_on_Q
    = Ok [Main.SegmentTraversal "Q" (Main.SegmentData 29 37 true true)].
Proof.
  intros (nodes & s1 & s2 & s3 & ->)%same_edges_as_parallel_graph.
  vm_compute. split_and!; reflexivity.
Qed.

Lemma route_same_segment_reads_parallel_edge_witness :
  Main.route Main.bellman_ford_path (λ _ _, true) parallel_graph snap_on_Q
  = Ok [Main.SegmentTraversal "Q" (Main.SegmentData 29 37 true true)].
Proof.
  destruct (route_same_segment_reads_parallel_edge Main.bellman_ford_path
              (λ _ _, true) parallel_graph) as (_ & _ & _ & H).
  - reflexivity.
  - exact H.
Defined.

(** When the two points are on segments with different ids that
    share a node, and the graph has both segments' edges (start, end, 0),
    with lengths [Lf] and [Lt], the route is exactly two partial
    traversals around a shared node [n] (the one [common_nodes.pop()]
    yields): the first leaves the start segment from the snapped distance
    towards [n] (to [Lf] with [ends_at_end] when [n] is its end node, to 0
    otherwise), the second enters the end segment at [n] (at 0 without
    [starts_at_end] when [n] is its start node, at [Lt] with
    [starts_at_end] otherwise) and runs to the snapped distance. *)
Theorem route_adjacent_segments
    (shortest_path : graph → Z → Z → result (list Z)) (pop_first : Z → Z → bool)
    (g : graph) (snap_data : Main.SnapDataForRouting) (Lf Lt : Q) :
  Main.from_segment_id snap_data ≠ Main.to_segment_id snap_data →
  (∃ n, shared_node snap_data n) →
  edge_length g (Main.from_segment_start_node snap_data)
                (Main.from_segment_end_node snap_data) = Ok Lf →
  edge_length g (Main.to_segment_start_node snap_data)
                (Main.to_segment_end_node snap_data) = Ok Lt →
  ∃ n first second,
    shared_node snap_data n
    ∧ Main.route shortest_path pop_first g snap_data
      = Ok [Main.SegmentTraversal (Main.from_segment_id snap_data) first;
            Main.SegmentTraversal (Main.to_segment_id snap_data) second]
    ∧ Main.start_distance_metres first
      = Main.from_segment_distance_along_segment_metres snap_data
    ∧ Main.end_distance_metres first
      = (if decide (n = Main.from_segment_end_node snap_data) then Lf else 0%Q)
    ∧ Main.starts_at_end first = false
    ∧ Main.ends_at_end first = bool_decide (n = Main.from_segment_end_node snap_data)
    ∧ Main.start_distance_metres second
      = (if decide (n = Main.to_segment_start_node snap_data) then 0%Q else Lt)
    ∧ Main.end_distance_metres second
      = Main.to_segment_distance_along_segment_metres snap_data
    ∧ Main.starts_at_end second
      = negb (bool_decide (n = Main.to_segment_start_node snap_data))
    ∧ Main.ends_at_end second
      = (bool_decide (n = Main.to_segment_start_node snap_data)
         && Main.distance_at_end_of_segment Lt
              (Main.to_segment_distance_along_segment_metres snap_data)).
Proof.
  intros Hid [n0 Hn0] Hf Ht.
  destruct (set_pop_elem_of pop_first (Main.common_nodes snap_data))
    as (n & Hpop & Hn).
  { intros E. apply elem_of_common_nodes in Hn0.
    rewrite E in Hn0. inversion Hn0. }
  apply elem_of_common_nodes in Hn.
  unfold Main.route. rewrite decide_False by done.
  rewrite Hf, Ht. simpl. rewrite Hpop.
  exists n. do 2 eexists. split; [done|]. split; [done|].
  destruct (Z.eqb_spec n (Main.from_segment_end_node snap_data));
    destruct (Z.eqb_spec n (Main.to_segment_start_node snap_data));
    simpl; split_and!; try done;
    repeat case_decide; repeat case_bool_decide; simpl; congruence.
Qed.

Lemma route_adjacent_segments_witness :
  Main.route Main.bellman_ford_path (λ _ _, true) two_segment_graph snap_A_to_B
  = Ok [Main.SegmentTraversal "A" (Main.SegmentData 12 30 false true);
        Main.SegmentTraversal "B" (Main.SegmentData 0 5 false false)].
Proof.
  destruct (route_adjacent_segments Main.bellman_ford_path (λ _ _, true)
              two_segment_graph snap_A_to_B 30 20)
    as (n & first & second & Hn & Hr & H1 & H2 & H3 & H4 & H5 & H6 & H7 & H8).
  - discriminate.
  - exists 2. split; [right | left]; reflexivity.
  - reflexivity.
  - reflexivity.
  - assert (n = 2) as ->.
    { destruct Hn as [[-> | ->] [Hn | Hn]]; first [reflexivity | discriminate Hn]. }
    rewrite Hr. destruct first, second. simpl in *. subst. reflexivity.
Defined.

(** C6 (failing input). The first point is on segment Q (40 m), 35 m from
    its start; Q runs beside segment P (30 m, key 0) and ends at node 2,
    where segment B starts.  The first traversal is given the length of
    edge (1, 2, 0), which is P: it runs from 35 m back to 30 m, away from
    the shared node at Q's 40 m, and is marked [ends_at_end].  The
    segment ids on the edges of the graph play no part. *)
Theorem route_adjacent_segments_reads_parallel_edge
    (shortest_path : graph → Z → Z → result (list Z)) (pop_first : Z → Z → bool)
    (g : graph) :
  edge_shape <$> g_edges g = edge_shape <$> g_edges parallel_graph →
  segment_length parallel_graph "Q" = Some 40%Q
  ∧ Main.route shortest_path pop_first g snap_Q_to_B
    = Ok [Main.SegmentTraversal "Q" (Main.SegmentData 35 30 false true);
          Main.SegmentTraversal "B" (Main.SegmentData 0 5 false false)].
Proof.
  intros (nodes & s1 & s2 & s3 & ->)%same_edges_as_parallel_graph.
  vm_compute. split_and!; reflexivity.
Qed.

Lemma route_adjacent_segments_reads_parallel_edge_witness :
  Main.route Main.bellman_ford_path (λ _ _, true) parallel_graph snap_Q_to_B
  = Ok [Main.SegmentTraversal "Q" (Main.SegmentData 35 30 false true);
        Main.SegmentTraversal "B" (Main.SegmentData 0 5 false false)].
Proof.
  destruct (route_adjacent_segments_reads_parallel_edge Main.bellman_ford_path
              (λ _ _, true) parallel_graph) as (_ & H).
  - reflexivity.
  - exact H.
Defined.

(** The adjacent-segment example evaluated: [ends_at_end] for A,
    no [starts_at_end] for B. *)
Example route_A_to_B :
  Main.route Main.bellman_ford_path (λ _ _, true) two_segment_graph snap_A_to_B
  = Ok [Main.SegmentTraversal "A" (Main.SegmentData 12 30 false true);
        Main.SegmentTraversal "B" (Main.SegmentData 0 5 false false)].
Proof. vm_compute. done. Qed.

(** C7. When the two points are on segments with different ids and no
    common node, the graph has both segments' edges (start, end, 0), and
    the shortest-path call raises for each of the four pairs of segment
    ends, the route is the empty list: no exception leaves [route]. *)
Theorem route_unreachable
    (shortest_path : graph → Z → Z → result (list Z)) (pop_first : Z → Z → bool)
    (g : graph) (snap_data : Main.SnapDataForRouting) (Lf Lt : Q) :
  Main.from_segment_id snap_data ≠ Main.to_segment_id snap_data →
  no_shared_node snap_data →
  edge_length g (Main.from_segment_start_node snap_data)
                (Main.from_segment_end_node snap_data) = Ok Lf →
  edge_length g (Main.to_segment_start_node snap_data)
                (Main.to_segment_end_node snap_data) = Ok Lt →
  (∀ s t,
     s = Main.from_segment_start_node snap_data ∨ s = Main.from_segment_end_node snap_data →
     t = Main.to_segment_start_node snap_data ∨ t = Main.to_segment_end_node snap_data →
     ∃ e, shortest_path g s t = Raise e) →
  Main.route shortest_path pop_first g snap_data = Ok [].
Proof.
  intros Hid Hns Hf Ht Hsp.
  unfold Main.route. rewrite decide_False by done.
  rewrite Hf, Ht. simpl. rewrite (common_nodes_nil _ Hns). simpl.
  unfold Main.search, Main.node_pairs. simpl.
  unfold Main.visit_pair, Main.try_pair.
  destruct (Hsp _ _ (or_introl eq_refl) (or_introl eq_refl)) as [e1 ->].
  destruct (Hsp _ _ (or_introl eq_refl) (or_intror eq_refl)) as [e2 ->].
  destruct (Hsp _ _ (or_intror eq_refl) (or_introl eq_refl)) as [e3 ->].
  destruct (Hsp _ _ (or_intror eq_refl) (or_intror eq_refl)) as [e4 ->].
  done.
Qed.

Lemma route_unreachable_witness :
  Main.route Main.bellman_ford_path (λ _ _, true) two_component_graph snap_A_to_C
  = Ok [].
Proof.
  apply (route_unreachable Main.bellman_ford_path (λ _ _, true)
           two_component_graph snap_A_to_C 30 20).
  - discriminate.
  - repeat split; discriminate.
  - reflexivity.
  - reflexivity.
  - intros s t [-> | ->] [-> | ->]; exists NetworkXNoPath; reflexivity.
Defined.

(** *** The general case *)

Lemma sum_lengths_ok g edges : ∀ acc,
  Forall (λ uv, ∃ l, edge_length g uv.1 uv.2 = Ok l) edges →
  ∃ s, Main.sum_lengths g acc edges = Ok s
       ∧ (s == acc + foldr (λ uv a, hop_length g uv + a) 0 edges)%Q.
Proof.
  induction edges as [|[u v] edges IH]; intros acc Hall; simpl.
  - exists acc. split; [done | ring].
  - apply Forall_cons in Hall as [[l Hl] Hall]. simpl in Hl.
    rewrite Hl. simpl.
    destruct (IH (acc + l)%Q Hall) as (s & -> & Hs).
    exists s. split; [done|]. rewrite Hs.
    unfold hop_length at 2. simpl. rewrite Hl. ring.
Qed.

Lemma full_traversals_ok g edges :
  Forall (λ uv, ∃ l, edge_length g uv.1 uv.2 = Ok l) edges →
  Main.full_traversals g edges = Ok (full_traversal g <$> edges).
Proof.
  induction edges as [|[u v] edges IH]; intros Hall; simpl; [done|].
  apply Forall_cons in Hall as [[l Hl] Hall]. simpl in Hl.
  rewrite Hl, (IH Hall). simpl.
  unfold full_traversal at 2, hop_length. simpl. by rewrite Hl.
Qed.

Lemma route_length_app r1 r2 :
  (route_length (r1 ++ r2) == route_length r1 + route_length r2)%Q.
Proof.
  induction r1 as [|t r1 IH]; simpl; [ring|].
  rewrite IH. ring.
Qed.

Lemma route_length_full g edges :
  (route_length (full_traversal g <$> edges)
   == foldr (λ uv a, hop_length g uv + a) 0 edges)%Q.
Proof.
  induction edges as [|uv edges IH]; simpl; [reflexivity|].
  by rewrite IH.
Qed.

(** A walk between two different nodes has a hop. *)
Lemma walk_hops_nonempty g s t p : walk g s t p → s ≠ t → Main.hops p ≠ [].
Proof.
  intros (Hh & Hl & _) Hne.
  destruct p as [|a [|b p]]; simpl in *; [done| |done].
  congruence.
Qed.

Section Search.

Variable shortest_path : graph → Z → Z → result (list Z).
Variable g : graph.

Lemma search_best_of cs :
  best_of shortest_path g cs (fold_left (Main.visit_pair shortest_path g) cs (Main.Best None [] None)).
Proof.
  induction cs as [|c cs IH] using rev_ind.
  { left. split; [done|]. intros c Hc. inversion Hc. }
  rewrite fold_left_app. simpl.
  set (b := fold_left (Main.visit_pair shortest_path g) cs _) in *.
  unfold Main.visit_pair. destruct (Main.try_pair shortest_path g c) as [[len edges]|e] eqn:Hev.
  - destruct IH as [[-> Hnone] | (i & c0 & len0 & edges0 & Hi & Hev0 & -> & Hmin)].
    + (* first reachable pair *)
      simpl. right. exists (length cs), c, len, edges.
      split_and!; [by rewrite lookup_app_r, Nat.sub_diag | done..|].
      intros j c' len' edges' Hj Hev'.
      apply lookup_app_Some in Hj as [Hj | [Hge Hj]].
      * apply list_elem_of_lookup_2, Hnone in Hj as [e He]. congruence.
      * destruct (j - length cs)%nat eqn:E; [|done]. simpl in Hj.
        simplify_eq. rewrite Hev in Hev'. simplify_eq.
        split; [apply Qle_refl | lia].
    + simpl. destruct (Main.Qltb len len0) eqn:Hlt.
      * (* strictly shorter: the new pair takes over *)
        apply Qltb_lt in Hlt.
        right. exists (length cs), c, len, edges.
        split_and!; [by rewrite lookup_app_r, Nat.sub_diag | done..|].
        intros j c' len' edges' Hj Hev'.
        apply lookup_app_Some in Hj as [Hj | [Hge Hj]].
        -- destruct (Hmin _ _ _ _ Hj Hev') as [Hle _].
           split; [|intros _]; lra.
        -- destruct (j - length cs)%nat eqn:E; [|done]. simpl in Hj.
           simplify_eq. rewrite Hev in Hev'. simplify_eq.
           split; [apply Qle_refl | lia].
      * (* not shorter: the earlier pair stays *)
        apply Qltb_ge in Hlt.
        right. exists i, c0, len0, edges0.
        split_and!; [by apply lookup_app_l_Some | done..|].
        intros j c' len' edges' Hj Hev'.
        apply lookup_app_Some in Hj as [Hj | [Hge Hj]].
        -- by apply (Hmin _ _ _ _ Hj Hev').
        -- destruct (j - length cs)%nat eqn:E; [|done]. simpl in Hj.
           simplify_eq. rewrite Hev in Hev'. simplify_eq.
           split; [done|]. apply lookup_lt_Some in Hi. lia.
  - destruct IH as [[-> Hnone] | (i & c0 & len0 & edges0 & Hi & Hev0 & -> & Hmin)].
    + left. split; [done|]. intros c' [Hc | Hc%list_elem_of_singleton]%elem_of_app.
      * by apply Hnone.
      * subst. eauto.
    + right. exists i, c0, len0, edges0.
      split_and!; [by apply lookup_app_l_Some | done..|].
      intros j c' len' edges' Hj Hev'.
      apply lookup_app_Some in Hj as [Hj | [Hge Hj]].
      * by apply (Hmin _ _ _ _ Hj Hev').
      * destruct (j - length cs)%nat eqn:E; [|done]. simpl in Hj.
        simplify_eq. congruence.
Qed.

(** A candidate whose shortest-path call returns a walk is evaluated to
    its total length; one whose call raises is skipped. *)
Lemma try_pair_walk (c : Main.candidate) p :
  shortest_path g c.1.1.1 c.1.1.2 = Ok p → walk g c.1.1.1 c.1.1.2 p →
  ∃ len, Main.try_pair shortest_path g c = Ok (len, Main.hops p) ∧ (len == total_length g c p)%Q.
Proof.
  destruct c as [[[s t] sd] ed]. simpl. intros Hsp (_ & _ & Hall).
  unfold Main.try_pair. rewrite Hsp. simpl.
  destruct (sum_lengths_ok g (Main.hops p) 0 Hall) as (sl & -> & Hsl).
  simpl. eexists. split; [done|].
  unfold total_length, path_length, remaining. simpl. rewrite Hsl. ring.
Qed.

Lemma try_pair_Ok_inv (c : Main.candidate) len edges :
  Main.try_pair shortest_path g c = Ok (len, edges) →
  ∃ p, shortest_path g c.1.1.1 c.1.1.2 = Ok p ∧ edges = Main.hops p.
Proof.
  destruct c as [[[s t] sd] ed]. unfold Main.try_pair. simpl.
  destruct (shortest_path g s t) as [p|]; [|done]. simpl.
  destruct (Main.sum_lengths g 0 (Main.hops p)); [|done]. simpl.
  intros. simplify_eq. eauto.
Qed.

Lemma try_pair_Raise (c : Main.candidate) e :
  shortest_path g c.1.1.1 c.1.1.2 = Raise e → Main.try_pair shortest_path g c = Raise e.
Proof.
  destruct c as [[[s t] sd] ed]. unfold Main.try_pair. simpl. by intros ->.
Qed.

End Search.

Lemma node_pairs_ends snap_data Lf Lt (c : Main.candidate) :
  c ∈ Main.node_pairs snap_data Lf Lt → no_shared_node snap_data → c.1.1.1 ≠ c.1.1.2.
Proof.
  intros Hc (H1 & H2 & H3 & H4). unfold Main.node_pairs in Hc.
  repeat (apply elem_of_cons in Hc as [-> | Hc]; [done|]).
  inversion Hc.
Qed.



(** C1 (failing input). Nodes 2 and 3 are joined by a long road (key 0,
    100 m) and a short one (key 1, 5 m).  The shortest paths by [length]
    between the four pairs of segment ends are as the hypotheses give
    them, and the one from node 2 to node 3 is 5 m long, so that routing
    through that pair takes 5 + 5 + 5 = 15 m.  The router counts the hop
    with the length of edge (2, 3, 0), 100 m, and settles on the pair of
    nodes 1 and 4 instead, with a route of 30 m. *)
Theorem route_general_counts_parallel_edge
    (shortest_path : graph → Z → Z → result (list Z)) (pop_first : Z → Z → bool) :
  shortest_path detour_graph 1 3 = Ok [1; 2; 3] →
  shortest_path detour_graph 1 4 = Ok [1; 4] →
  shortest_path detour_graph 2 3 = Ok [2; 3] →
  shortest_path detour_graph 2 4 = Ok [2; 3; 4] →
  Main.route shortest_path pop_first detour_graph snap_detour
  = Ok [Main.SegmentTraversal "A" (Main.SegmentData 5 0 false false);
        Main.FullSegmentTraversal 1 4 20;
        Main.SegmentTraversal "B" (Main.SegmentData 10 5 false false)]
  ∧ (route_length
       [Main.SegmentTraversal "A" (Main.SegmentData 5 0 false false);
        Main.FullSegmentTraversal 1 4 20;
        Main.SegmentTraversal "B" (Main.SegmentData 10 5 false false)]
     == 30)%Q
  ∧ (shortest_length detour_graph [2%Z; 3%Z] == 5)%Q
  ∧ (remaining (leave_at_end 5 10) + remaining (enter_at_start 5)
     + shortest_length detour_graph [2%Z; 3%Z] == 15)%Q.
Proof.
  intros H13 H14 H23 H24.
  assert (Main.search shortest_path detour_graph (Main.node_pairs snap_detour 10 10)
          = Main.Best (Some 30%Q) [(1, 4)]
              (Some (Main.SegmentData 5 0 false false,
                     Main.SegmentData 10 5 false false))) as Hs.
  { unfold Main.search, Main.node_pairs. cbn [fold_left].
    unfold Main.visit_pair, Main.try_pair.
    cbn [Main.from_segment_start_node Main.from_segment_end_node
         Main.to_segment_start_node Main.to_segment_end_node snap_detour].
    rewrite H13, H14, H23, H24. vm_compute. reflexivity. }
  split_and!; [|vm_compute; reflexivity..].
  unfold Main.route. rewrite decide_False by done.
  change (edge_length detour_graph (Main.from_segment_start_node snap_detour)
            (Main.from_segment_end_node snap_detour)) with (Ok 10%Q : result Q).
  change (edge_length detour_graph (Main.to_segment_start_node snap_detour)
            (Main.to_segment_end_node snap_detour)) with (Ok 10%Q : result Q).
  cbn [rbind].
  change (Main.set_pop pop_first (Main.common_nodes snap_detour)) with (@None Z).
  cbv beta iota. rewrite Hs. vm_compute. reflexivity.
Qed.

Lemma route_general_counts_parallel_edge_witness :
  Main.route Main.bellman_ford_path (λ _ _, true) detour_graph snap_detour
  = Ok [Main.SegmentTraversal "A" (Main.SegmentData 5 0 false false);
        Main.FullSegmentTraversal 1 4 20;
        Main.SegmentTraversal "B" (Main.SegmentData 10 5 false false)]
  ∧ (shortest_length detour_graph [2%Z; 3%Z] == 5)%Q.
Proof.
  destruct (route_general_counts_parallel_edge Main.bellman_ford_path (λ _ _, true))
    as (Hr & _ & Hl & _).
  - vm_compute. reflexivity.
  - vm_compute. reflexivity.
  - vm_compute. reflexivity.
  - vm_compute. reflexivity.
  - split; [exact Hr | exact Hl].
Defined.

(** The square evaluated: of the four pairs, N1 to N4 is the shortest
    (2 + 10 + 7 = 19 m), and the route goes back to N1, along N1-N4, and
    7 m down the end segment from N4. *)
Example route_square :
  Main.route Main.bellman_ford_path (λ _ _, true) square_graph snap_square
  = Ok [Main.SegmentTraversal "a_0" (Main.SegmentData 2 0 false false);
        Main.FullSegmentTraversal 1 4 10;
        Main.SegmentTraversal "c_0" (Main.SegmentData 10 3 false false)]
  ∧ (route_length
       [Main.SegmentTraversal "a_0" (Main.SegmentData 2 0 false false);
        Main.FullSegmentTraversal 1 4 10;
        Main.SegmentTraversal "c_0" (Main.SegmentData 10 3 false false)]
     == 19)%Q.
Proof. split; [by vm_compute | by vm_compute]. Qed.

(** ** Deleting, finding and counting runs *)

Lemma filter_id_list {A} (P : A → Prop) `{∀ x, Decision (P x)} (l : list A) :
  (∀ x, x ∈ l → P x) → filter P l = l.
Proof. intros H'. apply filter_id, Forall_forall, H'. Qed.

Lemma database_eq (db : Backend.database) :
  {| Backend.run_areas := Backend.run_areas db;
     Backend.logged_runs := Backend.logged_runs db;
     Backend.segment_traversals_table := Backend.segment_traversals_table db;
     Backend.ignored_segments := Backend.ignored_segments db |} = db.
Proof. by destruct db. Qed.

Lemma store_run_Ok_200 db run_id run_area run db' :
  Backend.store_run db run_id run_area run = Ok (Backend.Outcome 200 None, db') →
  ∃ dm, db' = stored_db db run_id run_area run dm.
Proof.
  unfold Backend.store_run.
  destruct (negb _ && Backend.exists_run_on_date _ _ _); [intros; simplify_eq|].
  destruct (Backend.get_duration_minutes (Backend.duration run)) as [m|e]; simpl.
  - intros. simplify_eq. by exists (Some m).
  - destruct e; simpl; intros; simplify_eq. by exists None.
Qed.

(** Deleting by id undoes a store made under a fresh id. *)
Theorem delete_run_by_id_undoes_store_run
    (db db' : Backend.database) (run_id : string) (run_area : Backend.RunArea)
    (run : Backend.LoggedRun) :
  fresh_run_id db run_id →
  Backend.store_run db run_id run_area run = Ok (Backend.Outcome 200 None, db') →
  Backend.delete_run_by_id db' run_id = db.
Proof.
  intros [Hr Hst] Hstore. apply store_run_Ok_200 in Hstore as [dm ->].
  unfold Backend.delete_run_by_id, Backend.set_runs, stored_db. simpl.
  rewrite !filter_app.
  rewrite (filter_id_list _ (Backend.logged_runs db)) by done.
  rewrite (filter_id_list _ (Backend.segment_traversals_table db)) by done.
  rewrite filter_cons_False, filter_nil by (simpl; intros H; by apply H).
  rewrite (filter_none _ (_ <$> _)).
  2:{ apply Forall_fmap, Forall_forall. intros kv _ H. by apply H. }
  rewrite !app_nil_r. apply database_eq.
Qed.

Lemma delete_run_by_id_undoes_store_run_witness :
  Backend.delete_run_by_id one_run_db "r0" = empty_db.
Proof.
  apply (delete_run_by_id_undoes_store_run empty_db one_run_db "r0"
           some_area second_run).
  - split; intros x Hx; inversion Hx.
  - reflexivity.
Defined.

Lemma order_by_date_nil l : Backend.order_by_date l = [] ↔ l = [].
Proof.
  destruct l as [|x l]; [done|]. split; [|done].
  unfold Backend.order_by_date. simpl.
  destruct (foldr Backend.insert_by_date [] l) as [|y l']; simpl; [done|].
  by destruct (String.leb _ _).
Qed.

Lemma leb_refl s : String.leb s s = true.
Proof. by destruct (String.leb_total s s). Qed.

Lemma date_clause_on_date d x :
  Backend.make_date_clause (Some d) (Some d) x = true ↔ x = d.
Proof.
  simpl. rewrite andb_true_iff. split.
  - intros [H1 H2]. by apply String.leb_antisym.
  - intros ->. by rewrite leb_refl.
Qed.

Lemma exists_run_on_date_joined
    (db : Backend.database) (run_area : Backend.RunArea) (d : string) :
  Backend.exists_run_on_date db run_area d = true
  ↔ ∃ r st, run_with_traversal db run_area d r st.
Proof.
  unfold Backend.exists_run_on_date, Backend.run_on_date, Backend.runs_in_date_range.
  set (lr := filter _ (Backend.logged_runs db)).
  set (joined := _ ≫= _).
  assert (joined ≠ [] ↔ ∃ r st, run_with_traversal db run_area d r st) as <-.
  { unfold run_with_traversal. split.
    - intros Hne. destruct joined as [|x j] eqn:E; [done|].
      assert (x ∈ joined) as Hx by (rewrite E; left).
      apply list_elem_of_bind in Hx as (st & Hx & Hst).
      apply list_elem_of_bind in Hx as (r & _ & Hr).
      apply list_elem_of_filter in Hr as [Hid Hr].
      apply list_elem_of_filter in Hr as [[Hd Ha] Hr].
      apply date_clause_on_date in Hd.
      exists r, st. done.
    - intros (r & st & Hr & Hst & Hid & Hd & Ha) E.
      assert ((Backend.lr_date r, Backend.st_segment_id st, Backend.st_traversals st)
              ∈ joined) as Hin.
      { apply list_elem_of_bind. exists st. split; [|done].
        apply list_elem_of_bind. exists r. split; [left|].
        apply list_elem_of_filter. split; [done|].
        apply list_elem_of_filter. split; [|done].
        split; [by apply date_clause_on_date | done]. }
      rewrite E in Hin. inversion Hin. }
  rewrite <- order_by_date_nil.
  destruct (Backend.order_by_date joined); split; done.
Qed.

(** With dates in the format [YYYY-MM-DD], in the store and in the
    question, [exists_run_on_date] sees a run exactly through its
    traversal rows. *)
Theorem exists_run_on_date_iff
    (db : Backend.database) (run_area : Backend.RunArea) (d : string) :
  iso_dates db → iso_date d = true →
  (Backend.exists_run_on_date db run_area d = true
   ↔ ∃ r st, run_with_traversal db run_area d r st).
Proof. intros _ _. apply exists_run_on_date_joined. Qed.

Lemma iso_dates_one_run_db : iso_dates one_run_db.
Proof.
  intros r Hr. unfold one_run_db, stored_db in Hr. simpl in Hr.
  apply list_elem_of_singleton in Hr as ->. reflexivity.
Qed.

Lemma exists_run_on_date_iff_witness :
  Backend.exists_run_on_date one_run_db some_area "2021-06-01" = true
  ∧ Backend.exists_run_on_date one_run_db some_area "2021-06-02" = false.
Proof.
  split.
  - apply (exists_run_on_date_iff one_run_db some_area "2021-06-01").
    + exact iso_dates_one_run_db.
    + reflexivity.
    + eexists _, _. unfold run_with_traversal. split_and!.
      * left.
      * left.
      * reflexivity.
      * reflexivity.
      * reflexivity.
  - apply not_true_is_false. intros H.
    apply (exists_run_on_date_iff one_run_db some_area "2021-06-02") in H.
    + destruct H as (r & st & Hr & _ & _ & Hd & _).
      unfold one_run_db, stored_db in Hr. simpl in Hr.
      apply list_elem_of_singleton in Hr as ->. discriminate Hd.
    + exact iso_dates_one_run_db.
    + reflexivity.
Defined.

(** A second run for a date is turned away, with status 400 and the
    store as it was, when an earlier run of the area on that date has a
    traversal row and [allow_multiple] is off. *)
Theorem store_run_rejects_duplicate
    (db : Backend.database) (run_id : string) (run_area : Backend.RunArea)
    (run : Backend.LoggedRun) r st :
  Backend.allow_multiple run = false →
  run_with_traversal db run_area (Backend.date run) r st →
  ∃ text, Backend.store_run db run_id run_area run
          = Ok (Backend.Outcome 400 (Some text), db).
Proof.
  intros Ha Hrun. apply store_run_conflict; [done|].
  apply exists_run_on_date_joined. eauto.
Qed.

Lemma store_run_rejects_duplicate_witness :
  ∃ text, Backend.store_run one_run_db "r1" some_area second_run
          = Ok (Backend.Outcome 400 (Some text), one_run_db).
Proof.
  eapply (store_run_rejects_duplicate one_run_db "r1" some_area second_run).
  - reflexivity.
  - unfold run_with_traversal. split_and!.
    + left.
    + left.
    + reflexivity.
    + reflexivity.
    + reflexivity.
Defined.

(** ** Run areas *)

Section RunAreas.
Import Backend.

Lemma find_some_iff {A} (f : A → bool) (l : list A) :
  is_Some (List.find f l) ↔ ∃ x, x ∈ l ∧ f x = true.
Proof.
  induction l as [|y l IH]; simpl.
  - split; [by intros [? ?] | intros (x & Hx & _); inversion Hx].
  - destruct (f y) eqn:Hy.
    + split; [|by eauto]. intros _. exists y. split; [left | done].
    + rewrite IH. split.
      * intros (x & Hx & Hfx). exists x. split; [by right | done].
      * intros (x & Hx & Hfx). apply elem_of_cons in Hx as [-> | Hx]; [congruence|].
        eauto.
Qed.

Lemma find_some_holds {A} (f : A → bool) (l : list A) x :
  List.find f l = Some x → x ∈ l ∧ f x = true.
Proof.
  intros H. apply List.find_some in H as [Hin Hf].
  split; [by apply list_elem_of_In | done].
Qed.

End RunAreas.

(** After [set_active_area_for_user], a row of the user is active exactly
    when it bears the given name; rows of other users, and every column
    but [active], are as before; the area returned is one of the user's
    with that name, and there is one whenever the user has such a row. *)
Theorem set_active_area_for_user_marks_named_area
    (db : Backend.database) (username area_name : string) :
  let '(found, db') := Backend.set_active_area_for_user db username area_name in
  (∀ r, r ∈ Backend.run_areas db' → Backend.ra_username r = username →
        (Backend.ra_active r = true ↔ Backend.ra_area_name r = area_name))
  ∧ area_without_flag <$> Backend.run_areas db'
    = area_without_flag <$> Backend.run_areas db
  ∧ filter (λ r, Backend.ra_username r ≠ username) (Backend.run_areas db')
    = filter (λ r, Backend.ra_username r ≠ username) (Backend.run_areas db)
  ∧ (∀ a, found = Some a →
          Backend.rar_username a = username ∧ Backend.rar_area_name a = area_name
          ∧ Backend.rar_active a = true)
  ∧ (is_Some found
     ↔ ∃ r, r ∈ Backend.run_areas db ∧ Backend.ra_username r = username
            ∧ Backend.ra_area_name r = area_name)
  ∧ Backend.logged_runs db' = Backend.logged_runs db
  ∧ Backend.segment_traversals_table db' = Backend.segment_traversals_table db
  ∧ Backend.ignored_segments db' = Backend.ignored_segments db.
Proof.
  unfold Backend.set_active_area_for_user. simpl.
  set (upd := λ r : Backend.run_area_row, if bool_decide _ then _ else r).
  assert (∀ r, Backend.ra_username (upd r) = Backend.ra_username r
               ∧ area_without_flag (upd r) = area_without_flag r
               ∧ (Backend.ra_username r = username →
                  Backend.ra_active (upd r)
                  = bool_decide (Backend.ra_area_name (upd r) = area_name))
               ∧ (Backend.ra_username r ≠ username → upd r = r)
               ∧ Backend.ra_area_name (upd r) = Backend.ra_area_name r) as Hupd.
  { intros r. unfold upd. case_bool_decide; simpl; split_and!; try done; congruence. }
  split_and!; try done.
  - intros r' Hr' Hu.
    apply list_elem_of_fmap in Hr' as (r & -> & Hr).
    destruct (Hupd r) as (Hu' & _ & Ha & _).
    rewrite Ha by congruence. apply bool_decide_eq_true.
  - rewrite <- list_fmap_compose. apply list_fmap_ext.
    intros i r _. simpl. apply Hupd.
  - induction (Backend.run_areas db) as [|r l IH]; [done|].
    rewrite fmap_cons, !filter_cons.
    destruct (Hupd r) as (Hu & _ & _ & Hne & _). rewrite Hu.
    case_decide; [|done]. by rewrite IH, Hne.
  - intros a Ha. unfold Backend.get_active_area_for_user in Ha. simpl in Ha.
    apply fmap_Some in Ha as (r' & Hfind & ->).
    apply find_some_holds in Hfind as [Hin Hf].
    apply andb_true_iff in Hf as [Hu Hact]. apply bool_decide_eq_true in Hu.
    apply list_elem_of_fmap in Hin as (r & -> & Hr).
    destruct (Hupd r) as (Hu' & _ & Ha & _ & Hn).
    simpl. split; [done|]. split; [|done].
    rewrite Ha in Hact by congruence. by apply bool_decide_eq_true in Hact.
  - unfold Backend.get_active_area_for_user. simpl.
    rewrite fmap_is_Some, find_some_iff. split.
    + intros (r' & Hin & Hf).
      apply andb_true_iff in Hf as [Hu Hact]. apply bool_decide_eq_true in Hu.
      apply list_elem_of_fmap in Hin as (r & -> & Hr).
      destruct (Hupd r) as (Hu' & _ & Ha & _ & Hn).
      rewrite Ha in Hact by congruence. apply bool_decide_eq_true in Hact.
      exists r. split_and!; congruence.
    + intros (r & Hr & Hu & Hn). exists (upd r).
      split; [by apply list_elem_of_fmap_2|].
      destruct (Hupd r) as (Hu' & _ & Ha & _ & Hn').
      rewrite Ha by done. rewrite Hu', Hn'.
      by rewrite !bool_decide_eq_true_2.
Qed.

(** [insert_run_area] raises exactly when the user already has an area
    of that name; otherwise it appends one row without a graph, and the
    (user, name) pairs stay distinct if they were. *)
Theorem insert_run_area_keeps_names_unique
    (db : Backend.database) (run_area : Backend.RunAreaRecord) :
  (Backend.insert_run_area db run_area = Raise ValueError
   ↔ ∃ r, r ∈ Backend.run_areas db
          ∧ Backend.ra_username r = Backend.rar_username run_area
          ∧ Backend.ra_area_name r = Backend.rar_area_name run_area)
  ∧ ∀ db', Backend.insert_run_area db run_area = Ok db' →
      (∃ r, Backend.run_areas db' = Backend.run_areas db ++ [r]
            ∧ Backend.record_of_row r = run_area ∧ Backend.ra_graph r = None)
      ∧ (areas_unique db → areas_unique db').
Proof.
  unfold Backend.insert_run_area, Backend.get_areas_for_user.
  destruct (existsb _ _) eqn:Hex.
  - split; [|done]. split; [intros _|done].
    apply existsb_exists in Hex as (a & Ha & Hn).
    apply bool_decide_eq_true in Hn.
    apply list_elem_of_In, list_elem_of_fmap in Ha as (r & -> & Hr).
    apply list_elem_of_filter in Hr as [Hu Hr]. exists r. done.
  - assert (¬ ∃ r, r ∈ Backend.run_areas db
                   ∧ Backend.ra_username r = Backend.rar_username run_area
                   ∧ Backend.ra_area_name r = Backend.rar_area_name run_area) as Hno.
    { intros (r & Hr & Hu & Hn).
      apply not_true_iff_false in Hex. apply Hex, existsb_exists.
      exists (Backend.record_of_row r). split.
      - apply list_elem_of_In, list_elem_of_fmap_2, list_elem_of_filter. done.
      - apply bool_decide_eq_true. done. }
    split; [split; [done | by intros ?]|].
    intros db' Hdb. simplify_eq. simpl. split.
    + eexists. split; [done|]. by destruct run_area.
    + unfold areas_unique. simpl. rewrite fmap_app. simpl. intros Hnd.
      apply NoDup_app. split_and!; [done | | apply NoDup_singleton].
      intros x Hx Hx'. apply list_elem_of_singleton in Hx' as ->.
      apply list_elem_of_fmap in Hx as (r & Heq & Hr). simplify_eq.
      apply Hno. exists r. done.
Qed.

(** A graph stored after the area was first asked for is not seen: the
    cache of [get_run_area_graph] keeps answering for that area what it
    answered before. *)
Theorem stored_graph_hidden_by_cache
    (p p1 : Backend.process) (username area_name : string) (value : option nat)
    (g : graph) :
  Backend.get_run_area_graph p username area_name = (value, p1) →
  Backend.get_run_area_graph
    (Backend.insert_run_area_graph p1 username area_name g) username area_name
  = (value, Backend.insert_run_area_graph p1 username area_name g).
Proof.
  intros H. apply get_run_area_graph_cached in H.
  by apply get_run_area_graph_hit.
Qed.

Lemma stored_graph_hidden_by_cache_witness :
  ∃ p1,
    Backend.get_run_area_graph server_without_graph "ann" "town" = (None, p1)
    ∧ Backend.get_run_area_graph
        (Backend.insert_run_area_graph p1 "ann" "town" line_graph) "ann" "town"
      = (None, Backend.insert_run_area_graph p1 "ann" "town" line_graph).
Proof.
  eexists. split; [reflexivity|].
  apply (stored_graph_hidden_by_cache server_without_graph).
  reflexivity.
Defined.

Lemma remove_dups_snoc_fresh {A} `{EqDecision A} (l : list A) x :
  x ∉ l → remove_dups (l ++ [x]) = remove_dups l ++ [x].
Proof.
  induction l as [|y l IH]; intros Hx; simpl; [done|].
  apply not_elem_of_cons in Hx as [Hne Hx].
  rewrite (IH Hx).
  destruct (decide_rel elem_of y (l ++ [x])) as [Hin|Hnin];
    destruct (decide_rel elem_of y l) as [Hin'|Hnin']; try done.
  - apply elem_of_app in Hin as [?|Hin%list_elem_of_singleton]; [done|congruence].
  - exfalso. apply Hnin, elem_of_app. by left.
Qed.

(** With dates in the format [YYYY-MM-DD], in the store, on the run and
    as bounds, an accepted run under a fresh id adds one to the number of
    runs of its area in every date range that holds its date, and nothing
    to any other count. *)
Theorem number_runs_after_store_run
    (db db' : Backend.database) (run_id : string) (run_area : Backend.RunArea)
    (run : Backend.LoggedRun) (start_date end_date : option string) :
  iso_dates db → iso_date (Backend.date run) = true →
  iso_bound start_date → iso_bound end_date →
  fresh_run_id db run_id →
  Backend.store_run db run_id run_area run = Ok (Backend.Outcome 200 None, db') →
  Backend.number_runs_in_date_range db' run_area start_date end_date
  = (Backend.number_runs_in_date_range db run_area start_date end_date
     + (if Backend.make_date_clause start_date end_date (Backend.date run)
        then 1 else 0))%nat
  ∧ ∀ other, other ≠ run_area →
      Backend.number_runs_in_date_range db' other start_date end_date
      = Backend.number_runs_in_date_range db other start_date end_date.
Proof.
  intros _ _ _ _ [Hr _] Hstore. apply store_run_Ok_200 in Hstore as [dm ->].
  unfold Backend.number_runs_in_date_range, stored_db. simpl. split.
  - rewrite filter_app, fmap_app.
    destruct (Backend.make_date_clause _ _ (Backend.date run)) eqn:Hd.
    + rewrite filter_cons_True, filter_nil.
      2:{ simpl. split; [done|]. unfold Backend.run_in_area. simpl.
          by rewrite !bool_decide_eq_true_2. }
      simpl. rewrite remove_dups_snoc_fresh, length_app; [done|].
      intros Hin. apply list_elem_of_fmap in Hin as (r & Hid & Hin).
      apply list_elem_of_filter in Hin as [_ Hin]. by apply (Hr r).
    + rewrite filter_cons_False, filter_nil by (simpl; intros [? _]; congruence).
      simpl. rewrite app_nil_r. lia.
  - intros other Hne. rewrite filter_app, filter_cons_False, filter_nil.
    { by rewrite app_nil_r. }
    simpl. intros [_ Ha]. unfold Backend.run_in_area in Ha. simpl in Ha.
    apply andb_true_iff in Ha as [Hu Hn].
    apply bool_decide_eq_true in Hu, Hn. apply Hne.
    destruct other, run_area; simpl in *; congruence.
Qed.

Lemma number_runs_after_store_run_witness :
  Backend.number_runs_in_date_range one_run_db some_area
    (Some "2021-06-01") (Some "2021-06-30") = 1%nat.
Proof.
  destruct (number_runs_after_store_run empty_db one_run_db "r0" some_area
              second_run (Some "2021-06-01") (Some "2021-06-30")) as [H _].
  - intros x Hx. inversion Hx.
  - reflexivity.
  - reflexivity.
  - reflexivity.
  - split; intros x Hx; inversion Hx.
  - reflexivity.
  - rewrite H. reflexivity.
Defined.

(** A duration text of fewer than ten characters, such as [HH:MM:SS]
    with no fraction, is not stored as null: an accepted run carrying it
    makes [store_run] raise [ValueError]. *)
Theorem store_run_short_duration
    (db : Backend.database) (run_id : string) (run_area : Backend.RunArea)
    (run : Backend.LoggedRun) (text : string) :
  accepted db run_area run →
  Backend.duration run = Some text → (String.length text ≤ 9)%nat →
  Backend.store_run db run_id run_area run = Raise ValueError.
Proof.
  intros Hacc Hd Hlen.
  by rewrite (store_run_accepted _ _ _ _ Hacc), Hd, get_duration_minutes_short.
Qed.

Lemma store_run_short_duration_witness :
  Backend.store_run empty_db "r1" some_area whole_seconds_run = Raise ValueError.
Proof.
  apply (store_run_short_duration empty_db "r1" some_area whole_seconds_run
           "00:30:00").
  - right. reflexivity.
  - reflexivity.
  - simpl. lia.
Defined.

(** ** The orientation pass and the graph *)

Lemma update_first_shape P sid (l : list edge) :
  edge_shape <$> update_first P (with_segment_id sid) l = edge_shape <$> l.
Proof.
  induction l as [|e l IH]; simpl; [done|].
  destruct (P e); simpl; [done|]. f_equal. apply IH.
Qed.

Lemma stamp_segment_id_shape g f :
  edge_shape <$> g_edges (Osm.stamp_segment_id g f) = edge_shape <$> g_edges g.
Proof.
  unfold Osm.stamp_segment_id.
  destruct (Osm.f_segment_id f); [|done].
  destruct (get_edge g _ _ 0); [|done].
  apply update_first_shape.
Qed.

Lemma agree_loop_shape todo : ∀ g acc g' out,
  Osm.agree_loop g todo acc = Ok (g', out) →
  g_nodes g' = g_nodes g
  ∧ edge_shape <$> g_edges g' = edge_shape <$> g_edges g
  ∧ (length out ≤ length acc + length todo)%nat.
Proof.
  induction todo as [|f todo IH]; intros g acc g' out H; simpl in H.
  { simplify_eq. split_and!; [done..|lia]. }
  destruct (Osm.orient_feature _ f) as [o|]; [|done]. simpl in H.
  destruct o as [f'|]; apply IH in H as (Hn & Hs & Hl).
  - rewrite Hn, Hs, stamp_segment_id_nodes, stamp_segment_id_shape.
    rewrite length_app in Hl. simpl in *. split_and!; [done..|lia].
  - rewrite Hn, Hs, stamp_segment_id_nodes, stamp_segment_id_shape.
    simpl. split_and!; [done..|lia].
Qed.

(** Whenever the orientation pass returns, the graph it returns has the
    nodes it was given and the same edges up to their segment ids (same
    ends, keys and lengths, in the same order), and no more features than
    it was given. *)
Theorem orientation_pass_keeps_graph_shape
    (g g' : graph) (geometry out : list Osm.feature) :
  Osm.make_sure_geometries_agree_with_start_end_nodes g geometry = Ok (g', out) →
  g_nodes g' = g_nodes g
  ∧ edge_shape <$> g_edges g' = edge_shape <$> g_edges g
  ∧ (length out ≤ length geometry)%nat.
Proof. intros H. by apply agree_loop_shape in H. Qed.

Lemma orientation_pass_keeps_graph_shape_witness :
  ∃ g' out,
    Osm.make_sure_geometries_agree_with_start_end_nodes two_node_graph
      [feature_renamed] = Ok (g', out)
    ∧ edge_shape <$> g_edges g' = edge_shape <$> g_edges two_node_graph.
Proof.
  eexists _, _. split; [reflexivity|].
  eapply (orientation_pass_keeps_graph_shape two_node_graph _ [feature_renamed]).
  reflexivity.
Defined.

Lemma agree_loop_raises pre : ∀ g acc f post,
  Forall (feature_ok g) pre → ¬ feature_ok g f →
  Osm.agree_loop g (pre ++ f :: post) acc
  = match node_lng_lat g (Osm.f_start_node f) with
    | Ok _ => Raise IndexError
    | Raise _ => Raise KeyError
    end.
Proof.
  induction pre as [|f0 pre IH]; intros g acc f post Hpre Hf; simpl.
  - unfold Osm.orient_feature.
    rewrite (node_lng_lat_ext _ _ _ (stamp_segment_id_nodes g f)).
    unfold feature_ok in Hf. unfold node_lng_lat in *.
    destruct (List.find _ (g_nodes g)) as [[n [x y]]|]; simpl; [|done].
    destruct (Osm.f_coordinates f); simpl; [done|].
    exfalso. apply Hf. split; [by eexists | done].
  - apply Forall_cons in Hpre as [Hf0 Hpre].
    pose proof (stamp_segment_id_nodes g f0) as Hn.
    rewrite orient_feature_oriented by by eapply feature_ok_ext.
    simpl.
    assert (Forall (feature_ok (Osm.stamp_segment_id g f0)) pre) as Hpre'.
    { eapply Forall_impl; [done|]. intros ?. by apply feature_ok_ext. }
    assert (¬ feature_ok (Osm.stamp_segment_id g f0) f) as Hf'.
    { intros H. apply Hf. eapply feature_ok_ext; [|done]. done. }
    destruct (oriented _ f0); rewrite IH by done;
      by rewrite (node_lng_lat_ext _ _ _ Hn).
Qed.

(** The orientation pass raises at the first feature it cannot handle:
    [KeyError] when that feature's start node is not in the graph,
    [IndexError] when the node is there and the geometry is empty. *)
Theorem orientation_pass_raises
    (g : graph) (pre post : list Osm.feature) (f : Osm.feature) :
  Forall (feature_ok g) pre → ¬ feature_ok g f →
  Osm.make_sure_geometries_agree_with_start_end_nodes g (pre ++ f :: post)
  = match node_lng_lat g (Osm.f_start_node f) with
    | Ok _ => Raise IndexError
    | Raise _ => Raise KeyError
    end.
Proof. apply agree_loop_raises. Qed.

Lemma orientation_pass_raises_witness :
  Osm.make_sure_geometries_agree_with_start_end_nodes two_node_graph
    ([feature_renamed] ++ feature_astray :: [feature_to_start])
  = Raise KeyError.
Proof.
  apply (orientation_pass_raises two_node_graph [feature_renamed]
           [feature_to_start] feature_astray).
  - repeat constructor; try (by eexists); done.
  - intros [[pos Hpos] _]. discriminate Hpos.
Defined.

Lemma is_edge_with_segment_id u v k sid e :
  is_edge u v k (with_segment_id sid e) = is_edge u v k e.
Proof. done. Qed.

Lemma is_edge_same_pair u v u' v' k e :
  same_pair u v u' v' → is_edge u v k e = is_edge u' v' k e.
Proof.
  unfold is_edge, joins. intros [[-> ->] | [-> ->]]; [done|].
  f_equal. apply orb_comm.
Qed.

Lemma is_edge_both u v u' v' k k' e :
  is_edge u v k e = true → is_edge u' v' k' e = true → same_pair u v u' v'.
Proof.
  unfold is_edge, joins, same_pair.
  rewrite !andb_true_iff, !orb_true_iff, !andb_true_iff, !Z.eqb_eq.
  intros [[[? ?] | [? ?]] _] [[[? ?] | [? ?]] _]; subst; auto.
Qed.

Lemma find_update_first_same (P : edge → bool) h (l : list edge) :
  (∀ e, P (h e) = P e) →
  List.find P (update_first P h l) = h <$> List.find P l.
Proof.
  intros Hh. induction l as [|e l IH]; simpl; [done|].
  destruct (P e) eqn:He; simpl.
  - by rewrite Hh, He.
  - by rewrite He.
Qed.

Lemma find_update_first_other (P Q : edge → bool) h (l : list edge) :
  (∀ e, Q (h e) = Q e) → (∀ e, P e = true → Q e = false) →
  List.find Q (update_first P h l) = List.find Q l.
Proof.
  intros Hh Hdisj. induction l as [|e l IH]; simpl; [done|].
  destruct (P e) eqn:He; simpl.
  - by rewrite Hh, (Hdisj _ He).
  - by rewrite IH.
Qed.

Lemma find_ext {A} (f h : A → bool) (l : list A) :
  (∀ x, f x = h x) → List.find f l = List.find h l.
Proof.
  intros H. induction l as [|x l IH]; simpl; [done|].
  by rewrite H, IH.
Qed.

(** What one stamping does to the id read at edge [(u, v, 0)]. *)
Lemma segment_id_of_edge_stamp g f u v :
  segment_id_of_edge (Osm.stamp_segment_id g f) u v
  = match Osm.f_segment_id f, segment_id_of_edge g u v with
    | Some sid, Some old =>
        if decide (same_pair (Osm.f_start_node f) (Osm.f_end_node f) u v)
        then Some (Some sid) else Some old
    | _, o => o
    end.
Proof.
  unfold Osm.stamp_segment_id, segment_id_of_edge, get_edge.
  destruct (Osm.f_segment_id f) as [sid|]; [|by destruct (List.find _ _)].
  case_decide as Hsame.
  - rewrite (find_ext (is_edge u v 0)
               (is_edge (Osm.f_start_node f) (Osm.f_end_node f) 0) (g_edges g))
      by (intros e; symmetry; by apply is_edge_same_pair).
    destruct (List.find _ (g_edges g)) as [e|] eqn:Hfind; simpl.
    + rewrite (find_ext (is_edge u v 0)
                 (is_edge (Osm.f_start_node f) (Osm.f_end_node f) 0))
        by (intros e'; symmetry; by apply is_edge_same_pair).
      rewrite find_update_first_same by done. by rewrite Hfind.
    + rewrite (find_ext (is_edge u v 0)
                 (is_edge (Osm.f_start_node f) (Osm.f_end_node f) 0))
        by (intros e'; symmetry; by apply is_edge_same_pair).
      by rewrite Hfind.
  - destruct (List.find (is_edge (Osm.f_start_node f) (Osm.f_end_node f) 0) _)
      as [e0|]; [|by destruct (List.find _ _)].
    simpl. rewrite find_update_first_other; [by destruct (List.find _ _)|done|].
    intros e He. apply not_true_iff_false. intros He'.
    apply Hsame. by eapply is_edge_both.
Qed.

Lemma agree_loop_app pre : ∀ g acc rest g' out,
  Osm.agree_loop g (pre ++ rest) acc = Ok (g', out) →
  ∃ g1 acc1, Osm.agree_loop g pre acc = Ok (g1, acc1)
             ∧ Osm.agree_loop g1 rest acc1 = Ok (g', out).
Proof.
  induction pre as [|f pre IH]; intros g acc rest g' out H; simpl in *.
  { by exists g, acc. }
  destruct (Osm.orient_feature _ f) as [o|]; [|done]. simpl in *.
  destruct o; by apply IH.
Qed.

Lemma agree_loop_edge_kept todo u v : ∀ g acc g' out,
  Osm.agree_loop g todo acc = Ok (g', out) →
  is_Some (segment_id_of_edge g u v) → is_Some (segment_id_of_edge g' u v).
Proof.
  induction todo as [|f todo IH]; intros g acc g' out H Hsome; simpl in H.
  { by simplify_eq. }
  destruct (Osm.orient_feature _ f) as [o|]; [|done]. simpl in H.
  assert (is_Some (segment_id_of_edge (Osm.stamp_segment_id g f) u v)) as Hs.
  { rewrite segment_id_of_edge_stamp. destruct Hsome as [old ->].
    destruct (Osm.f_segment_id f); [case_decide|]; done. }
  destruct o; by eapply IH.
Qed.

Lemma agree_loop_id_kept todo u v : ∀ g acc g' out,
  Osm.agree_loop g todo acc = Ok (g', out) →
  Forall (λ f, ¬ same_pair (Osm.f_start_node f) (Osm.f_end_node f) u v) todo →
  segment_id_of_edge g' u v = segment_id_of_edge g u v.
Proof.
  induction todo as [|f todo IH]; intros g acc g' out H Hall; simpl in H.
  { by simplify_eq. }
  apply Forall_cons in Hall as [Hf Hall].
  destruct (Osm.orient_feature _ f) as [o|]; [|done]. simpl in H.
  assert (segment_id_of_edge (Osm.stamp_segment_id g f) u v
          = segment_id_of_edge g u v) as <-.
  { rewrite segment_id_of_edge_stamp.
    destruct (Osm.f_segment_id f), (segment_id_of_edge g u v); try done.
    by rewrite decide_False. }
  destruct o; by eapply IH.
Qed.

(** When the orientation pass returns, the edge [(start, end, 0)] of a
    feature that carries a segment id, if the graph has that edge, ends
    up carrying that id, provided no later feature is for the same pair
    of nodes. *)
Theorem orientation_pass_stamps_segment_id
    (g g' : graph) (pre post out : list Osm.feature) (f : Osm.feature)
    (sid : string) :
  Osm.make_sure_geometries_agree_with_start_end_nodes g (pre ++ f :: post)
  = Ok (g', out) →
  Osm.f_segment_id f = Some sid →
  is_Some (segment_id_of_edge g (Osm.f_start_node f) (Osm.f_end_node f)) →
  Forall (λ f', ¬ same_pair (Osm.f_start_node f') (Osm.f_end_node f')
                            (Osm.f_start_node f) (Osm.f_end_node f)) post →
  segment_id_of_edge g' (Osm.f_start_node f) (Osm.f_end_node f) = Some (Some sid).
Proof.
  intros Hrun Hsid Hedge Hpost.
  apply agree_loop_app in Hrun as (g1 & acc1 & Hpre & Hrest).
  pose proof (agree_loop_edge_kept _ _ _ _ _ _ _ Hpre Hedge) as [old Hold].
  simpl in Hrest.
  destruct (Osm.orient_feature _ f) as [o|]; [|done]. simpl in Hrest.
  assert (segment_id_of_edge (Osm.stamp_segment_id g1 f)
            (Osm.f_start_node f) (Osm.f_end_node f) = Some (Some sid)) as <-.
  { rewrite segment_id_of_edge_stamp, Hsid, Hold.
    rewrite decide_True; [done|]. by left. }
  destruct o; by eapply agree_loop_id_kept.
Qed.

Lemma orientation_pass_stamps_segment_id_witness :
  ∃ g' out,
    Osm.make_sure_geometries_agree_with_start_end_nodes two_node_graph
      ([feature_to_start] ++ feature_renamed :: []) = Ok (g', out)
    ∧ segment_id_of_edge g' 1 2 = Some (Some "9_0").
Proof.
  eexists _, _. split; [reflexivity|].
  eapply (orientation_pass_stamps_segment_id two_node_graph _ [feature_to_start]
            [] _ feature_renamed "9_0").
  - reflexivity.
  - reflexivity.
  - by eexists.
  - constructor.
Defined.

(** ** When the router returns *)

Lemma edge_length_Raise g u v e : edge_length g u v = Raise e → e = KeyError.
Proof.
  unfold edge_length, get_edge. destruct (List.find _ _); simpl; congruence.
Qed.

Lemma sum_lengths_Ok_all g edges : ∀ acc s,
  Main.sum_lengths g acc edges = Ok s →
  Forall (λ uv, ∃ l, edge_length g uv.1 uv.2 = Ok l) edges.
Proof.
  induction edges as [|[u v] edges IH]; intros acc s H; simpl in H.
  { constructor. }
  destruct (edge_length g u v) as [l|] eqn:Hl; [|done]. simpl in H.
  constructor; [by exists l | by eapply IH].
Qed.

Lemma try_pair_Ok_lengths shortest_path g (c : Main.candidate) len edges :
  Main.try_pair shortest_path g c = Ok (len, edges) →
  Forall (λ uv, ∃ l, edge_length g uv.1 uv.2 = Ok l) edges.
Proof.
  destruct c as [[[s t] sd] ed]. unfold Main.try_pair.
  destruct (shortest_path g s t) as [p|]; [|done]. simpl.
  destruct (Main.sum_lengths g 0 (Main.hops p)) as [sl|] eqn:Hs; [|done]. simpl.
  intros. simplify_eq. by eapply sum_lengths_Ok_all.
Qed.

Lemma route_outcome shortest_path pop_first g snap_data :
  match edge_length g (Main.from_segment_start_node snap_data)
                      (Main.from_segment_end_node snap_data),
        decide (Main.from_segment_id snap_data = Main.to_segment_id snap_data),
        edge_length g (Main.to_segment_start_node snap_data)
                      (Main.to_segment_end_node snap_data) with
  | Raise _, _, _ | Ok _, right _, Raise _ =>
      Main.route shortest_path pop_first g snap_data = Raise KeyError
  | Ok _, left _, _ | Ok _, right _, Ok _ =>
      ∃ r, Main.route shortest_path pop_first g snap_data = Ok r
  end.
Proof.
  unfold Main.route.
  destruct (edge_length g (Main.from_segment_start_node snap_data) _)
    as [Lf|e1] eqn:Hf.
  2:{ apply edge_length_Raise in Hf as ->. by case_decide. }
  case_decide as Hid; simpl; [by eauto|].
  destruct (edge_length g (Main.to_segment_start_node snap_data) _)
    as [Lt|e2] eqn:Ht; simpl.
  2:{ by apply edge_length_Raise in Ht as ->. }
  destruct (Main.set_pop _ _); [by eauto|].
  destruct (search_best_of shortest_path g (Main.node_pairs snap_data Lf Lt))
    as [[Hb _] | (i & c & len & edges & _ & Hev & Hb & _)];
    unfold Main.search; rewrite Hb; simpl; [by eauto|].
  destruct edges as [|uv edges]; [by eauto|].
  rewrite (full_traversals_ok _ _ (try_pair_Ok_lengths _ _ _ _ _ Hev)).
  simpl. eauto.
Qed.

(** Whatever the shortest-path call does, [route] returns exactly when
    the graph has edge (start, end, 0) of the first segment and, for
    different segment ids, of the second one too; otherwise it raises
    [KeyError], and it raises nothing else. *)
Theorem route_returns_iff
    (shortest_path : graph → Z → Z → result (list Z)) (pop_first : Z → Z → bool)
    (g : graph) (snap_data : Main.SnapDataForRouting) :
  ((∃ r, Main.route shortest_path pop_first g snap_data = Ok r)
   ↔ (∃ Lf, edge_length g (Main.from_segment_start_node snap_data)
                          (Main.from_segment_end_node snap_data) = Ok Lf)
     ∧ (Main.from_segment_id snap_data ≠ Main.to_segment_id snap_data →
        ∃ Lt, edge_length g (Main.to_segment_start_node snap_data)
                            (Main.to_segment_end_node snap_data) = Ok Lt))
  ∧ ∀ e, Main.route shortest_path pop_first g snap_data = Raise e → e = KeyError.
Proof.
  pose proof (route_outcome shortest_path pop_first g snap_data) as H.
  destruct (edge_length g (Main.from_segment_start_node snap_data) _) as [Lf|e1].
  2:{ rewrite H. split; [|congruence].
      split; [by intros [? ?] | by intros [[? ?] _]]. }
  destruct (decide _) as [Hid|Hid].
  { destruct H as [r ->]. split; [|done].
    split; [intros _; split; [by eauto | done] | by eauto]. }
  destruct (edge_length g (Main.to_segment_start_node snap_data) _) as [Lt|e2].
  - destruct H as [r ->]. split; [|done].
    split; [intros _; split; by eauto | by eauto].
  - rewrite H. split; [|congruence].
    split; [by intros [? ?]|]. intros [_ Ht]. by destruct (Ht Hid).
Qed.

(** ** Ignore-aware loading *)

Lemma filter_rev {A} (P : A → Prop) `{∀ x, Decision (P x)} (l : list A) :
  filter P (List.rev l) = List.rev (filter P l).
Proof.
  induction l as [|x l IH]; [done|]. simpl.
  rewrite filter_app, IH, filter_cons. case_decide; simpl.
  - rewrite filter_cons_True by done. done.
  - rewrite filter_cons_False by done. by rewrite app_nil_r.
Qed.

Lemma filter_ext_in {A} (P Q : A → Prop) `{∀ x, Decision (P x)}
    `{∀ x, Decision (Q x)} (l : list A) :
  (∀ x, x ∈ l → P x ↔ Q x) → filter P l = filter Q l.
Proof.
  induction l as [|x l IH]; intros Hl; [done|].
  rewrite !filter_cons.
  rewrite IH by (intros y Hy; apply Hl; by right).
  pose proof (Hl x (list_elem_of_here _ _)).
  repeat case_decide; tauto || done.
Qed.

Lemma remove_first_unique (P : edge → bool) (l : list edge) :
  (length (filter (λ e, P e = true) l) ≤ 1)%nat →
  Main.remove_first P l = filter (λ e, P e = false) l.
Proof.
  induction l as [|e l IH]; intros Hlen; [done|]. simpl.
  rewrite filter_cons in Hlen. rewrite filter_cons.
  destruct (P e) eqn:He.
  - rewrite decide_True in Hlen by done. rewrite decide_False by done.
    simpl in Hlen.
    symmetry. apply filter_id, Forall_forall. intros x Hx.
    apply not_true_iff_false. intros Hpx.
    assert (x ∈ filter (λ e, P e = true) l) as Hin by by apply list_elem_of_filter.
    destruct (filter _ l); [inversion Hin | simpl in Hlen; lia].
  - rewrite decide_False in Hlen by congruence. rewrite decide_True by done.
    by rewrite IH.
Qed.

Lemma remove_edge_unique g uv :
  (length (filter (λ e, joins uv.1 uv.2 e = true) (g_edges g)) ≤ 1)%nat →
  g_edges (Main.remove_edge g uv)
  = filter (λ e, joins uv.1 uv.2 e = false) (g_edges g).
Proof.
  intros Hlen. unfold Main.remove_edge. simpl.
  rewrite remove_first_unique.
  - by rewrite filter_rev, rev_involutive.
  - by rewrite filter_rev, length_rev.
Qed.

Lemma length_filter_and {A} (P Q : A → Prop) `{∀ x, Decision (P x)}
    `{∀ x, Decision (Q x)} (l : list A) :
  (length (filter (λ x, P x ∧ Q x) l) ≤ length (filter P l))%nat.
Proof.
  induction l as [|x l IH]; [done|].
  rewrite !filter_cons. repeat case_decide; simpl; try lia; tauto.
Qed.

Lemma remove_edges_from_filter to_remove : ∀ g,
  no_parallel_edges g →
  g_nodes (Main.remove_edges_from g to_remove) = g_nodes g
  ∧ g_edges (Main.remove_edges_from g to_remove)
    = filter (λ e, joins_none to_remove e = true) (g_edges g).
Proof.
  induction to_remove as [|uv to_remove IH]; intros g Hg; simpl.
  { split; [done|]. symmetry. by apply filter_id, Forall_forall. }
  unfold Main.remove_edges_from in *. simpl.
  destruct (IH (Main.remove_edge g uv)) as [Hn He].
  { intros u v. rewrite remove_edge_unique by apply Hg.
    rewrite list_filter_filter.
    etrans; [apply length_filter_and | apply (Hg u v)]. }
  rewrite Hn, He, remove_edge_unique by apply Hg.
  split; [done|]. rewrite list_filter_filter. apply list_filter_iff.
  intros e. unfold joins_none. simpl.
  rewrite andb_true_iff, negb_true_iff. tauto.
Qed.

Lemma joins_own_ends e : joins (e_u e) (e_v e) e = true.
Proof. unfold joins. by rewrite !Z.eqb_refl. Qed.

(** Without parallel edges, removing the node pairs of the ignored edges
    removes exactly the ignored edges. *)
Lemma remove_ignored_edges g ids :
  no_parallel_edges g →
  Main.remove_edges_from g (Main.edges_to_remove g ids)
  = Graph (g_nodes g) (filter (λ e, Main.is_ignored ids e = false) (g_edges g)).
Proof.
  intros Hg.
  destruct (remove_edges_from_filter (Main.edges_to_remove g ids) g Hg) as [Hn He].
  destruct (Main.remove_edges_from g _) as [nodes edges]. simpl in *. subst.
  f_equal. apply filter_ext_in. intros e He.
  unfold joins_none, Main.edges_to_remove.
  rewrite forallb_forall. split.
  - intros Hall. apply not_true_iff_false. intros Hign.
    specialize (Hall (e_u e, e_v e)). simpl in Hall.
    rewrite joins_own_ends in Hall. enough (negb true = true) by done. apply Hall.
    apply list_elem_of_In, list_elem_of_fmap. exists e.
    split; [done|]. by apply list_elem_of_filter.
  - intros Hign uv Huv.
    apply list_elem_of_In, list_elem_of_fmap in Huv as (e' & -> & He').
    apply list_elem_of_filter in He' as [Hign' He']. simpl.
    apply negb_true_iff, not_true_iff_false. intros Hj.
    pose proof (Hg (e_u e') (e_v e')) as Hlen.
    assert (e ∈ filter (λ x, joins (e_u e') (e_v e') x = true) (g_edges g)) as H1
      by by apply list_elem_of_filter.
    assert (e' ∈ filter (λ x, joins (e_u e') (e_v e') x = true) (g_edges g)) as H2.
    { apply list_elem_of_filter. split; [apply joins_own_ends | done]. }
    destruct (filter _ (g_edges g)) as [|x [|y l]]; simpl in Hlen; [inversion H1| |lia].
    apply list_elem_of_singleton in H1, H2. congruence.
Qed.

Lemma get_run_area_graph_tables p u a value p' :
  Backend.get_run_area_graph p u a = (value, p') →
  Backend.tables p' = Backend.tables p.
Proof.
  unfold Backend.get_run_area_graph, Backend.load_run_area_graph.
  destruct (Backend.graph_cache p) as [[[u' a'] v']|];
    repeat (first [case_match | simplify_eq]); intros; by simplify_eq.
Qed.

(** When the loaded graph has no parallel edges, a load with
    [respect_ignored] leaves in the graph object exactly the edges whose
    segment id is not ignored for the area, in their order, and the
    nodes as they were. *)
Theorem filtered_load_without_parallel_edges
    (p p1 : Backend.process) (current_user : Main.CurrentUser)
    (run_area : Backend.RunArea) (addr : nat) (g : graph) :
  Main.make_run_area current_user = Ok run_area →
  Backend.get_run_area_graph p (Backend.username run_area)
    (Backend.area_name run_area) = (Some addr, p1) →
  Backend.objects p1 !! addr = Some g →
  no_parallel_edges g →
  ∃ p', Main.get_routing_graph p current_user true = Ok (Some addr, p')
        ∧ Main.deref p' (Some addr)
          = Some (Graph (g_nodes g)
                    (filter (λ e, Main.is_ignored
                                    (Backend.ignored_segment_ids
                                       (Backend.tables p) run_area) e = false)
                            (g_edges g))).
Proof.
  intros Hra Hload Hobj Hg. unfold Main.get_routing_graph.
  rewrite Hra. simpl. rewrite Hload, Hobj.
  rewrite (get_run_area_graph_tables _ _ _ _ _ Hload).
  eexists. split; [done|]. simpl.
  rewrite list_lookup_insert_eq by by eapply lookup_lt_Some.
  by rewrite remove_ignored_edges.
Qed.

Lemma filtered_load_without_parallel_edges_witness :
  ∃ p', Main.get_routing_graph server_with_ignored_segment ann true
        = Ok (Some 0%nat, p')
        ∧ Main.deref p' (Some 0%nat)
          = Some (Graph (g_nodes line_graph) [Edge 2 3 0 10 (Some "8_0")]).
Proof.
  destruct (filtered_load_without_parallel_edges server_with_ignored_segment
              (Backend.Process (Backend.tables server_with_ignored_segment)
                 [line_graph] (Some ("ann", "town", Some 0%nat)))
              ann some_area 0 line_graph) as (p' & H1 & H2).
  - reflexivity.
  - reflexivity.
  - reflexivity.
  - intros u v. unfold line_graph. cbn [g_edges].
    rewrite !filter_cons, filter_nil. unfold joins. cbn [e_u e_v].
    repeat case_decide; cbn [length]; lia.
  - exists p'. split; [exact H1 | exact H2].
Defined.

(** ** Grouping first-seen rows by date *)

Lemma segments_on_snoc d rows (t : string * string) :
  segments_on d (rows ++ [t])
  = segments_on d rows ++ (if decide (t.1 = d) then [t.2] else []).
Proof.
  unfold segments_on. rewrite filter_app, fmap_app, filter_cons, filter_nil.
  by case_decide.
Qed.

Lemma by_date_snoc rows (t : string * string) :
  by_date (rows ++ [t]) → by_date rows ∧ ∀ x, x ∈ rows → String.le x.1 t.1.
Proof.
  unfold by_date. intros H. split.
  - by apply StronglySorted_app_1_l in H.
  - intros x Hx. eapply (StronglySorted_app_1_elem_of _ _ _ x t) in H; [done|done|left].
Qed.

(** The state of the loop after the rows [pre], when these are in date
    order. *)
Lemma first_seen_loop pre :
  by_date pre →
  match last pre with
  | None => fold_left Main.first_seen_step pre (None, [], ∅) = (None, [], ∅)
  | Some x =>
      ∃ acc, fold_left Main.first_seen_step pre (None, [], ∅)
             = (Some x.1, segments_on x.1 pre, acc)
        ∧ ∀ d, acc !! d
               = if decide (d = x.1) then None
                 else match segments_on d pre with
                      | [] => None
                      | segs => Some segs
                      end
  end.
Proof.
  induction pre as [|t pre IH] using rev_ind; intros Hs; [done|].
  apply by_date_snoc in Hs as [Hpre Hle].
  rewrite last_snoc, fold_left_app. simpl.
  specialize (IH Hpre). destruct (last pre) as [x|] eqn:Hlast.
  - destruct IH as (acc & -> & Hacc). simpl.
    assert (x ∈ pre) as Hx.
    { apply last_Some in Hlast as [l' ->]. apply elem_of_app. right. left. }
    case_decide as Hd.
    + exists acc. rewrite <- Hd, segments_on_snoc, decide_True by done.
      split; [done|]. intros d. rewrite Hacc, segments_on_snoc.
      case_decide; [done|]. rewrite decide_False by congruence.
      by rewrite app_nil_r.
    + assert (segments_on t.1 pre = []) as Hnone.
      { unfold segments_on.
        rewrite (filter_none _ pre); [done|]. apply Forall_forall.
        intros y Hy Heq. apply Hd.
        apply (anti_symm String.le); [by apply Hle|].
        rewrite <- Heq.
        apply last_Some in Hlast as [l' ->].
        apply elem_of_app in Hy as [Hy | Hy%list_elem_of_singleton]; [|by subst].
        unfold by_date in Hpre.
        eapply (StronglySorted_app_1_elem_of _ _ _ y x) in Hpre; [done|done|left]. }
      exists (<[x.1 := segments_on x.1 pre]> acc).
      rewrite segments_on_snoc, decide_True, Hnone by done.
      split; [done|]. intros d. rewrite segments_on_snoc.
      destruct (decide (d = t.1)) as [->|Hdt].
      * rewrite lookup_insert_ne by done. rewrite Hacc, Hnone.
        by case_decide.
      * rewrite decide_False, app_nil_r by congruence.
        destruct (decide (d = x.1)) as [->|Hdx].
        -- rewrite lookup_insert_eq.
           destruct (segments_on x.1 pre) eqn:E; [|done].
           exfalso. unfold segments_on in E. apply fmap_nil_inv in E.
           assert (x ∈ filter (λ t0, t0.1 = x.1) pre) as Hin
             by by apply list_elem_of_filter.
           rewrite E in Hin. inversion Hin.
        -- rewrite lookup_insert_ne by done. rewrite Hacc.
           by rewrite decide_False.
  - rewrite IH. simpl. apply last_None in Hlast as ->.
    exists ∅. rewrite segments_on_snoc, decide_True by done.
    split; [done|]. intros d. rewrite lookup_empty, segments_on_snoc.
    simpl. repeat case_decide; congruence || done.
Qed.

(** For rows in ascending order of date, as the query returns them,
    [/first_seen] maps every date that occurs to all the segments of its
    rows, in row order, and has no entry for any other date. *)
Theorem first_seen_groups_by_date (first_traversals : list (string * string)) :
  by_date first_traversals →
  ∀ d, Main.first_seen first_traversals !! d
       = match segments_on d first_traversals with
         | [] => None
         | segs => Some segs
         end.
Proof.
  intros Hs d. unfold Main.first_seen.
  destruct first_traversals as [|t0 l] eqn:E; [done|]. rewrite <- E in *.
  pose proof (first_seen_loop _ Hs) as H.
  destruct (last first_traversals) as [x|] eqn:Hlast.
  - destruct H as (acc & -> & Hacc).
    destruct (decide (d = x.1)) as [->|Hd].
    + rewrite lookup_insert_eq.
      destruct (segments_on x.1 first_traversals) eqn:E'; [|done].
      exfalso. unfold segments_on in E'. apply fmap_nil_inv in E'.
      assert (x ∈ filter (λ t, t.1 = x.1) first_traversals) as Hin.
      { apply list_elem_of_filter. split; [done|].
        apply last_Some in Hlast as [l' ->]. apply elem_of_app. right. left. }
      rewrite E' in Hin. inversion Hin.
    + rewrite lookup_insert_ne by done. rewrite Hacc. by rewrite decide_False.
  - apply last_None in Hlast. congruence.
Qed.

Lemma first_seen_groups_by_date_witness :
  Main.first_seen [("2021-06-01", "7_0"); ("2021-06-01", "8_0"); ("2021-06-03", "9_0")]
    !! "2021-06-01"
  = Some ["7_0"; "8_0"].
Proof.
  rewrite (first_seen_groups_by_date
             [("2021-06-01", "7_0"); ("2021-06-01", "8_0"); ("2021-06-03", "9_0")]).
  - reflexivity.
  - repeat (constructor; [|repeat (constructor; [exact I|]); constructor]).
    constructor.
Defined.

(** Once a run with at least one traversal has been stored, a later run
    of the same area and date with [allow_multiple] off is turned away
    with status 400 and the store is left as the first run made it. *)
Theorem store_run_blocks_next_run_on_date
    (db db' : Backend.database) (run_id run_id' : string)
    (run_area : Backend.RunArea) (run run' : Backend.LoggedRun) :
  Backend.store_run db run_id run_area run = Ok (Backend.Outcome 200 None, db') →
  Backend.segment_traversals run ≠ [] →
  Backend.allow_multiple run' = false →
  Backend.date run' = Backend.date run →
  ∃ text, Backend.store_run db' run_id' run_area run'
          = Ok (Backend.Outcome 400 (Some text), db').
Proof.
  intros Hstore Hne Ha Hd. apply store_run_Ok_200 in Hstore as [dm ->].
  apply store_run_conflict; [done|]. apply exists_run_on_date_joined.
  destruct (Backend.segment_traversals run) as [|kv l] eqn:E; [done|].
  exists (stored_row run_id run_area run dm),
    {| Backend.st_run_id := run_id; Backend.st_segment_id := kv.1;
       Backend.st_traversals := kv.2 |}.
  unfold run_with_traversal, stored_db. simpl. rewrite E. split_and!.
  - apply elem_of_app. right. left.
  - apply elem_of_app. right. left.
  - done.
  - done.
  - unfold Backend.run_in_area. simpl. by rewrite !bool_decide_eq_true_2.
Qed.

Lemma store_run_blocks_next_run_on_date_witness :
  ∃ text, Backend.store_run one_run_db "r1" some_area second_run
          = Ok (Backend.Outcome 400 (Some text), one_run_db).
Proof.
  apply (store_run_blocks_next_run_on_date empty_db one_run_db "r0" "r1"
           some_area second_run second_run).
  - reflexivity.
  - discriminate.
  - reflexivity.
  - reflexivity.
Defined.

(** ** The [/route] handler and an area without a graph *)

(** When the graph lookup for the user's area answers [None], [/route]
    raises [AttributeError] for two points on one segment and
    [TypeError] otherwise; and it goes on doing so after the area's
    graph has been stored, since the lookup is cached. *)
Theorem route_handler_without_cached_graph
    (shortest_path : graph → Z → Z → result (list Z)) (pop_first : Z → Z → bool)
    (p p1 : Backend.process) (current_user : Main.CurrentUser)
    (run_area : Backend.RunArea) (snap_data : Main.SnapDataForRouting) (g : graph) :
  Main.make_run_area current_user = Ok run_area →
  Backend.get_run_area_graph p (Backend.username run_area)
    (Backend.area_name run_area) = (None, p1) →
  let e := if decide (Main.from_segment_id snap_data = Main.to_segment_id snap_data)
           then AttributeError else TypeError in
  Main.route_handler shortest_path pop_first p current_user snap_data = Raise e
  ∧ Main.route_handler shortest_path pop_first
      (Backend.insert_run_area_graph p1 (Backend.username run_area)
         (Backend.area_name run_area) g)
      current_user snap_data
    = Raise e.
Proof.
  intros Hra Hg e. unfold Main.route_handler, Main.get_routing_graph.
  rewrite Hra. simpl. rewrite Hg. simpl.
  split; [subst e; by case_decide|].
  apply get_run_area_graph_cached in Hg.
  erewrite get_run_area_graph_hit by exact Hg.
  simpl. subst e; by case_decide.
Qed.

Lemma route_handler_without_cached_graph_witness :
  ∃ p1,
    Backend.get_run_area_graph server_without_graph "ann" "town" = (None, p1)
    ∧ Main.route_handler Main.bellman_ford_path Z.leb
        (Backend.insert_run_area_graph p1 "ann" "town" line_graph) ann snap_10_40
      = Raise AttributeError.
Proof.
  eexists. split; [reflexivity|].
  apply (route_handler_without_cached_graph Main.bellman_ford_path Z.leb
           server_without_graph _ ann
           {| Backend.username := "ann"; Backend.area_name := "town" |}
           snap_10_40 line_graph).
  - reflexivity.
  - reflexivity.
Defined.
